(** * The control facade of the telemetry framework (package [control])

    A shallow embedding of [control/control.go]: the facade operations
    ([Start], [Stop], [Load], [Unload], [SwapPlugins], the subscription
    calls) as state-passing functions over the facade's fields, and
    [CollectMetrics] as a sequential dispatch loop followed by an
    interleaving semantics of the goroutines it spawns.

    The collaborators the facade only knows through Go interfaces
    ([managesPlugins], [catalogsMetrics], the routing strategy, the plugin
    RPC client, the config policy) are interfaces here as well: type classes
    and function-valued fields, so every theorem holds for every
    implementation of them. *)

From Stdlib Require Import ZArith Lia.
From stdpp Require Import base tactics option list strings pretty gmap fin_maps sorting.

Set Default Proof Using "Type".
Open Scope Z_scope.

(** ** Go values *)

Module Go.

(** The built-in [error] interface, identified with the message that
    [Error()] yields; [errors.New] is the constructor. *)
Record error := errors_New { Error : string }.

(** A slice is either [nil] or an allocated sequence; [len] and [append]
    treat both alike, but callers can tell them apart by comparing
    with [nil]. *)
Definition slice (A : Type) : Type := option (list A).

Definition nil {A : Type} : slice A := None.

Definition elems {A : Type} (s : slice A) : list A := default [] s.

Definition len {A : Type} (s : slice A) : nat := length (elems s).

(** [append(s, xs...)]: appending nothing to [nil] gives [nil] back. *)
Definition append {A : Type} (s : slice A) (xs : list A) : slice A :=
  match s, xs with
  | None, [] => None
  | _, _ => Some (elems s ++ xs)
  end.

(** Go's [int] on the 64-bit targets: two's complement wrap-around. *)
Definition wrap_int (z : Z) : Z := (z + 2 ^ 63) `mod` 2 ^ 64 - 2 ^ 63.

(** [strings.Join]. *)
Definition strings_Join (parts : list string) (sep : string) : string :=
  String.concat sep parts.

(** [strconv.Itoa], also the rendering of an [int] under [%d] and [%v]. *)
Definition strconv_Itoa (z : Z) : string := pretty z.

(** The rendering of a [[]string] under [%s]: [[a b c]]. *)
Definition fmt_strings (parts : list string) : string :=
  "[" +:+ String.concat " " parts +:+ "]".

End Go.

Abbreviation error := Go.error.
Abbreviation errors_New := Go.errors_New.
Abbreviation Error := Go.Error.
Abbreviation slice := Go.slice.

(** ** Package [core]: requested metric types and collected metrics *)

Module core.

(** What the facade uses of the [core.MetricType] interface. *)
Record MetricType := { Namespace : list string; Version : Z }.

(** A collected value, opaque to the facade. *)
Record Metric := { MetricNamespace : list string; Data : Z }.

End core.

(** ** Packages [ctypes], [cdata] and the config policy *)

Module cdata.

(** [map[string]ctypes.ConfigValue]. *)
Abbreviation ConfigTable := (gmap string string).

(** A config data node wraps a table: [cd.Table()] and
    [cdata.FromTable]. *)
Record ConfigDataNode := FromTable { Table : ConfigTable }.

(** Modelled from the spec: the config policy is not part of the file; a
    policy node validates a raw table, and [Process] returns a pointer to
    the normalised table and a pointer to the processing errors, either of
    which may be [nil]. [errs.HasErrors()] holds when the error list is
    non-empty and [errs.Errors()] is that list. *)
Record ConfigPolicyNode := {
  Process : ConfigTable → option ConfigTable * option (list error)
}.

Definition HasErrors (errs : list error) : bool :=
  match errs with [] => false | _ => true end.

End cdata.

(** ** Package [control_event]: what the facade emits on the event bus *)

Module control_event.

Inductive event :=
| LoadPluginEvent
| UnloadPluginEvent
| SwapPluginsEvent
| MetricSubscriptionEvent (MetricNamespace : list string) (Version : Z)
| MetricUnsubscriptionEvent (MetricNamespace : list string)
| PublisherSubscriptionEvent (PluginName : string) (PluginVersion : Z).

End control_event.

Import control_event.

(** ** Package [control]: data *)

(** A loaded plugin, as far as the facade reads it. *)
Record loadedPlugin := {
  lp_Name : string;
  lp_Version : Z;
  lp_TypeName : string;
  lp_Status : string;
  lp_LoadedTimestamp : Z;
  ConfigPolicyTree : list string → cdata.ConfigPolicyNode
}.

(** Modelled from the spec: [loadedPlugin.Key] is not part of the file; the
    data model gives it as the stable key string [name:version], the same
    shape [PublishMetrics] builds with [strings.Join] and [strconv.Itoa]. *)
Definition Key (lp : loadedPlugin) : string :=
  Go.strings_Join [lp_Name lp; Go.strconv_Itoa (lp_Version lp)] ":".

(** [CatalogedPlugin] is the interface management modules see; its values
    are pointers to loaded plugins, or [nil]. *)
Definition CatalogedPlugin : Type := option loadedPlugin.

(** A [*metricType] is an address in the store of catalogued metric
    types. *)
Definition loc : Type := nat.

(** The catalog's record of one metric type. *)
Record metricType := {
  mt_Namespace : list string;
  mt_Version : Z;
  policy : cdata.ConfigPolicyNode;
  config : option cdata.ConfigDataNode;
  subscriptions : Z
}.

Definition set_config (c : cdata.ConfigDataNode) (m : metricType) : metricType :=
  {| mt_Namespace := mt_Namespace m; mt_Version := mt_Version m;
     policy := policy m; config := Some c; subscriptions := subscriptions m |}.

(** Modelled from the spec: [metricType.Subscribe] is not part of the file;
    the catalog contract says it increments the subscription counter. *)
Definition Subscribe (m : metricType) : metricType :=
  {| mt_Namespace := mt_Namespace m; mt_Version := mt_Version m;
     policy := policy m; config := config m;
     subscriptions := subscriptions m + 1 |}.

(** The RPC client of a running instance; the type assertions of the
    dispatcher ask which interface it implements. *)
Inductive pluginClient :=
| CollectorClient
    (CollectMetrics : list core.MetricType → slice core.Metric * option error)
| PublisherClient
    (Publish : string → list Byte.byte → cdata.ConfigTable → option error)
| OtherClient.

(** [ap.Client.(client.PluginCollectorClient)]. *)
Definition asCollectorClient (c : pluginClient)
  : option (list core.MetricType → slice core.Metric * option error) :=
  match c with CollectorClient f => Some f | _ => None end.

(** A running instance with its usage statistics. *)
Record availablePlugin := {
  Client : pluginClient;
  hitCount : Z;
  lastHitTime : Z
}.

(** [ap.hitCount++; ap.lastHitTime = time.Now()]. *)
Definition hit (now : Z) (ap : availablePlugin) : availablePlugin :=
  {| Client := Client ap;
     hitCount := Go.wrap_int (hitCount ap + 1);
     lastHitTime := now |}.

(** Modelled from the spec: the pool type is not part of the file; a pool
    is the collection of running instances sharing a plugin key, and
    [Count] is their number. *)
Definition availablePluginPool : Type := list availablePlugin.

Definition Count (pool : availablePluginPool) : Z := Z.of_nat (length pool).

(** The two indices of the pool set, keyed by [name:version];
    [GetPluginPool] is the lookup, [nil] when the key is absent. *)
Record availablePlugins := {
  Collectors : gmap string availablePluginPool;
  Publishers : gmap string availablePluginPool
}.

Definition GetPluginPool (index : gmap string availablePluginPool) (key : string)
  : option availablePluginPool := index !! key.

(** The routing strategy picks a member of the pool, by position, or
    reports an error; like every Go pair, both may be [nil]. *)
Definition RoutingStrategy : Type :=
  availablePluginPool → option nat * option error.

(** Modelled from the spec: [SelectUsingStrategy] is not part of the file;
    it hands the pool to the strategy and yields the instance the strategy
    picked. A position outside the pool yields no instance. *)
Definition SelectUsingStrategy (pool : availablePluginPool) (strategy : RoutingStrategy)
  : option (nat * availablePlugin) * option error :=
  let '(sel, err) := strategy pool in
  (i ← sel; ap ← pool !! i; Some (i, ap), err).

(** ** Package [control]: the interfaces of the collaborators *)

(** A metric catalog: its own state [C], whatever the implementation
    keeps, and the records its [*metricType] pointers lead to. *)
Record catalog (C : Type) := {
  index : C;
  cells : gmap loc metricType
}.
Arguments index {C} c.
Arguments cells {C} c.

(** [catalogsMetrics], as far as the facade calls it. *)
Class catalogsMetrics (C : Type) := {
  Get : list string → Z → catalog C → option loc * option error;
  GetPlugin : list string → Z → catalog C → option loadedPlugin * option error;
  Unsubscribe : list string → Z → catalog C → catalog C * option error
}.

(** [managesPlugins], over the manager's own state [M]. The manager holds a
    reference to the metric catalog ([SetMetricCatalog] in [New]), so its
    calls may change the catalog as well. The emitter handed to
    [LoadPlugin] is passed on to the instances the manager creates; the
    facade's own notifications are emitted by the facade. *)
Class managesPlugins (M C : Type) := {
  LoadPlugin : string → M → catalog C →
               (M * catalog C) * (option loadedPlugin * option error);
  UnloadPlugin : CatalogedPlugin → M → catalog C → (M * catalog C) * option error;
  LoadedPlugins : M → list loadedPlugin
}.

(** ** The goroutines of [CollectMetrics]

    [CollectMetrics] starts one goroutine per dispatched plugin group and two
    aggregating goroutines, one per channel, and waits on a [WaitGroup].
    Each goroutine is a small automaton over its program points; the shared
    variables are the named results [metrics] and [errs] and the counter of
    [wg]. The channels are unbuffered, so a send is a rendezvous of a worker
    with the aggregator of that channel. *)

Abbreviation collectFn := (list core.MetricType → slice core.Metric * option error).

(** A worker, [go func(mt []core.MetricType) {...}(pmt.metricTypes)]:
    before the call, after the assignment [metrics, err = ...] (its [err]
    is the variable of its own loop iteration), blocked in one of the two
    sends with the operand already evaluated, or finished. *)
Inductive worker :=
| WCall (cli : collectFn) (mt : list core.MetricType)
| WBranch (err : option error)
| WSendError (e : error)
| WSendMetrics (v : slice core.Metric)
| WExit.

(** The goroutine ranging over [cMetrics]: waiting for a message, holding
    one, between reading [metrics] and writing the appended slice back,
    about to call [wg.Done()], or past the closed channel. *)
Inductive metricsAggregator :=
| MRecv
| MGot (m : slice core.Metric)
| MAppend (old m : slice core.Metric)
| MDone
| MExit.

(** The goroutine ranging over [cError]. *)
Inductive errorAggregator :=
| ERecv
| EGot (e : error)
| EDone
| EExit.

(** The calling goroutine: at [wg.Wait()], at the two [close] calls, at the
    final test of [len(errs)], or returned with its two results; [Crashed]
    is a run-time panic in any goroutine, which ends the program. *)
Inductive caller :=
| AtWait
| AtClose
| AtCheck
| Returned (metrics : slice core.Metric) (errs : slice error)
| Crashed (msg : string).

Record goroutines := {
  metrics : slice core.Metric;
  errs : slice error;
  wg : nat;
  closed : bool;
  workers : list worker;
  aggMetrics : metricsAggregator;
  aggErrors : errorAggregator;
  main : caller
}.

Definition set_metrics (v : slice core.Metric) (g : goroutines) : goroutines :=
  {| metrics := v; errs := errs g; wg := wg g; closed := closed g;
     workers := workers g; aggMetrics := aggMetrics g;
     aggErrors := aggErrors g; main := main g |}.

Definition set_errs (v : slice error) (g : goroutines) : goroutines :=
  {| metrics := metrics g; errs := v; wg := wg g; closed := closed g;
     workers := workers g; aggMetrics := aggMetrics g;
     aggErrors := aggErrors g; main := main g |}.

Definition set_wg (n : nat) (g : goroutines) : goroutines :=
  {| metrics := metrics g; errs := errs g; wg := n; closed := closed g;
     workers := workers g; aggMetrics := aggMetrics g;
     aggErrors := aggErrors g; main := main g |}.

Definition set_closed (b : bool) (g : goroutines) : goroutines :=
  {| metrics := metrics g; errs := errs g; wg := wg g; closed := b;
     workers := workers g; aggMetrics := aggMetrics g;
     aggErrors := aggErrors g; main := main g |}.

Definition set_worker (i : nat) (w : worker) (g : goroutines) : goroutines :=
  {| metrics := metrics g; errs := errs g; wg := wg g; closed := closed g;
     workers := <[i := w]> (workers g); aggMetrics := aggMetrics g;
     aggErrors := aggErrors g; main := main g |}.

Definition set_aggMetrics (a : metricsAggregator) (g : goroutines) : goroutines :=
  {| metrics := metrics g; errs := errs g; wg := wg g; closed := closed g;
     workers := workers g; aggMetrics := a;
     aggErrors := aggErrors g; main := main g |}.

Definition set_aggErrors (a : errorAggregator) (g : goroutines) : goroutines :=
  {| metrics := metrics g; errs := errs g; wg := wg g; closed := closed g;
     workers := workers g; aggMetrics := aggMetrics g;
     aggErrors := a; main := main g |}.

Definition set_main (c : caller) (g : goroutines) : goroutines :=
  {| metrics := metrics g; errs := errs g; wg := wg g; closed := closed g;
     workers := workers g; aggMetrics := aggMetrics g;
     aggErrors := aggErrors g; main := c |}.

(** What the scheduler can pick: a step of one goroutine, or the rendezvous
    of worker [i] with the aggregator of the channel it sends on. *)
Inductive thread :=
| Worker (i : nat)
| SendMetrics (i : nat)
| SendError (i : nat)
| AggMetrics
| AggErrors
| Main.

Definition crash (msg : string) (g : goroutines) : goroutines :=
  set_main (Crashed msg) g.

(** [wg.Done()]: a counter driven below zero is a panic. *)
Definition wg_Done (g : goroutines) : goroutines :=
  match wg g with
  | O => crash "sync: negative WaitGroup counter" g
  | S n => set_wg n g
  end.

Definition running (g : goroutines) : bool :=
  match main g with Returned _ _ | Crashed _ => false | _ => true end.

(** One step of the program; [None] when the thread is blocked or done.
    Nothing moves once the caller has returned or the program crashed. *)
Definition step (t : thread) (g : goroutines) : option goroutines :=
  if negb (running g) then None else
  match t with
  | Worker i =>
      w ← workers g !! i;
      match w with
      | WCall cli mt =>
          (* metrics, err = cli.CollectMetrics(mt) *)
          let '(r, e) := cli mt in
          Some (set_worker i (WBranch e) (set_metrics r g))
      | WBranch (Some e) => Some (set_worker i (WSendError e) g)
      | WBranch None => Some (set_worker i (WSendMetrics (metrics g)) g)
      | _ => None
      end
  | SendMetrics i =>
      w ← workers g !! i;
      match w with
      | WSendMetrics v =>
          if closed g then Some (crash "send on closed channel" g) else
          match aggMetrics g with
          | MRecv => Some (set_worker i WExit (set_aggMetrics (MGot v) g))
          | _ => None
          end
      | _ => None
      end
  | SendError i =>
      w ← workers g !! i;
      match w with
      | WSendError e =>
          if closed g then Some (crash "send on closed channel" g) else
          match aggErrors g with
          | ERecv => Some (set_worker i WExit (set_aggErrors (EGot e) g))
          | _ => None
          end
      | _ => None
      end
  | AggMetrics =>
      match aggMetrics g with
      | MRecv => if closed g then Some (set_aggMetrics MExit g) else None
      | MGot m => Some (set_aggMetrics (MAppend (metrics g) m) g)
      | MAppend old m =>
          (* metrics = append(metrics, m...) *)
          Some (set_aggMetrics MDone (set_metrics (Go.append old (Go.elems m)) g))
      | MDone => Some (wg_Done (set_aggMetrics MRecv g))
      | MExit => None
      end
  | AggErrors =>
      match aggErrors g with
      | ERecv => if closed g then Some (set_aggErrors EExit g) else None
      | EGot e =>
          (* errs = append(errs, e) *)
          Some (set_aggErrors EDone (set_errs (Go.append (errs g) [e]) g))
      | EDone => Some (wg_Done (set_aggErrors ERecv g))
      | EExit => None
      end
  | Main =>
      match main g with
      | AtWait => if bool_decide (wg g = O) then Some (set_main AtClose g) else None
      | AtClose => Some (set_main AtCheck (set_closed true g))
      | AtCheck =>
          if bool_decide (0 < Go.len (errs g))%nat
          then Some (set_main (Returned Go.nil (errs g)) g)
          else Some (set_main (Returned (metrics g) (errs g)) g)
      | _ => None
      end
  end.

(** The interleavings: any enabled thread may move next. *)
Definition steps_to (g g' : goroutines) : Prop := ∃ t, step t g = Some g'.

(** The threads of a state, and those that can move. *)
Definition threads (g : goroutines) : list thread :=
  Main :: AggMetrics :: AggErrors ::
  flat_map (λ i, [Worker i; SendMetrics i; SendError i]) (seq 0 (length (workers g))).

Definition enabled (g : goroutines) : list thread :=
  filter (λ t, is_Some (step t g)) (threads g).

(** A bound on the steps left: every step lowers it. *)
Definition worker_weight (w : worker) : nat :=
  match w with
  | WCall _ _ => 6 | WBranch _ => 5 | WSendError _ => 4 | WSendMetrics _ => 4
  | WExit => 0
  end.

Definition weight (g : goroutines) : nat :=
  (sum_list (worker_weight <$> workers g)
   + match aggMetrics g with
     | MRecv => 1 | MGot _ => 4 | MAppend _ _ => 3 | MDone => 2 | MExit => 0 end
   + match aggErrors g with
     | ERecv => 1 | EGot _ => 3 | EDone => 2 | EExit => 0 end
   + match main g with
     | AtWait => 3 | AtClose => 2 | AtCheck => 1 | _ => 0 end)%nat.

(** Running under a scheduler: at every step the next number of the
    schedule picks among the enabled threads (a schedule that has run out
    picks the first). *)
Fixpoint run (schedule : list nat) (fuel : nat) (g : goroutines) : goroutines :=
  match fuel with
  | O => g
  | S fuel =>
      match enabled g with
      | [] => g
      | t :: ts =>
          let k := (hd O schedule `mod` S (length ts))%nat in
          match step (nth k (t :: ts) t) g with
          | Some g' => run (tl schedule) fuel g'
          | None => g
          end
      end
  end.

(** *** Bookkeeping for the proofs *)

(** The units of work [wg] still waits for: a worker that has not handed
    over its outcome, and an aggregator that holds an outcome and has not
    called [wg.Done()] yet. *)
Definition unfinished (w : worker) : nat :=
  match w with WExit => O | _ => 1%nat end.

Definition holdingMetrics (a : metricsAggregator) : nat :=
  match a with MGot _ | MAppend _ _ | MDone => 1%nat | _ => O end.

Definition holdingError (a : errorAggregator) : nat :=
  match a with EGot _ | EDone => 1%nat | _ => O end.

Definition outstanding (g : goroutines) : nat :=
  (sum_list (unfinished <$> workers g)
   + holdingMetrics (aggMetrics g) + holdingError (aggErrors g))%nat.

(** The states the program can be in: the counter of [wg] is the number of
    outstanding units, the channels are closed only after it reached zero,
    the aggregators leave only past the close, and nothing has panicked. *)
Definition consistent (g : goroutines) : Prop :=
  wg g = outstanding g ∧
  (closed g = true → wg g = O) ∧
  (main g = AtWait → closed g = false) ∧
  (main g = AtClose → closed g = false ∧ wg g = O) ∧
  (closed g = false → main g = AtWait ∨ main g = AtClose) ∧
  (aggMetrics g = MExit → closed g = true) ∧
  (aggErrors g = EExit → closed g = true) ∧
  (∀ msg, main g ≠ Crashed msg).

(** The error a worker will still send, if any: the one its remote call
    yields, yielded, or that it is blocked sending. *)
Definition owed (w : worker) : list error :=
  match w with
  | WCall cli mt => option_list (cli mt).2
  | WBranch err => option_list err
  | WSendError e => [e]
  | _ => []
  end.

(** The errors recorded and the errors on their way to [errs]. *)
Definition errors_due (g : goroutines) : list error :=
  Go.elems (errs g)
  ++ match aggErrors g with EGot e => [e] | _ => [] end
  ++ flat_map owed (workers g).

(** The states of a program with one worker, whose call yields the list
    [r] and no error: once the call is made, [metrics] is [r], the worker
    sends [r], and the aggregator appends what it received to what it
    finds in [metrics]. *)
Definition doubling (r : slice core.Metric) (g : goroutines) : Prop :=
  holdingError (aggErrors g) = O ∧ errs g = Go.nil ∧
  ∃ w, workers g = [w] ∧
    match w with
    | WCall cli mt => cli mt = (r, None) ∧ holdingMetrics (aggMetrics g) = O
    | WBranch err => err = None ∧ metrics g = r ∧ holdingMetrics (aggMetrics g) = O
    | WSendMetrics v => v = r ∧ metrics g = r ∧ holdingMetrics (aggMetrics g) = O
    | WSendError _ => False
    | WExit =>
        match aggMetrics g with
        | MGot m => m = r ∧ metrics g = r
        | MAppend old m => old = r ∧ m = r
        | _ => metrics g = Go.append r (Go.elems r)
        end
    end.

(** A slice that is [nil] when it is empty, as one built by single
    [append]s from [nil] is. *)
Definition tidy {A : Type} (s : slice A) : Prop := s ≠ Some [].

(** The results agree with the shared variables they were read from: with
    any error recorded the metrics are [nil]. *)
Definition results_read (g : goroutines) : Prop :=
  ∀ ms es, main g = Returned ms es →
    es = errs g ∧ ((0 < Go.len es)%nat → ms = Go.nil) ∧
    ((Go.len es = 0)%nat → ms = metrics g).

(** What the Go runtime decides for one call of [CollectMetrics]: the
    order in which [range] walks the map of groups (by rank of the key),
    the scheduling of the goroutines, and the readings of [time.Now()]. *)
Record runtime := {
  range_rank : string → nat;
  schedule : list nat;
  time_Now : nat → Z
}.

(** Map entries compared by the rank of their keys. *)
Definition rank_le {V : Type} (rt : runtime) (a b : string * V) : Prop :=
  (range_rank rt a.1 ≤ range_rank rt b.1)%nat.

#[global] Instance rank_le_dec {V : Type} (rt : runtime) (a b : string * V)
  : Decision (rank_le rt a b) := decide (range_rank rt a.1 ≤ range_rank rt b.1)%nat.

(** ** Package [control]: the facade *)

Section Facade.

Context {M C : Type} `{!catalogsMetrics C} `{!managesPlugins M C}.

(** The fields of [pluginControl] the operations touch. [eventManager] is
    the sequence of events emitted so far, oldest first; [pluginRunner]
    stands for what [AvailablePlugins()] yields. *)
Record pluginControl := {
  Started : bool;
  eventManager : list event;
  pluginManager : M;
  metricCatalog : catalog C;
  pluginRunner : availablePlugins;
  strategy : RoutingStrategy
}.

Definition set_Started (b : bool) (p : pluginControl) : pluginControl :=
  {| Started := b; eventManager := eventManager p;
     pluginManager := pluginManager p; metricCatalog := metricCatalog p;
     pluginRunner := pluginRunner p;
     strategy := strategy p |}.

Definition set_eventManager (es : list event) (p : pluginControl) : pluginControl :=
  {| Started := Started p; eventManager := es;
     pluginManager := pluginManager p; metricCatalog := metricCatalog p;
     pluginRunner := pluginRunner p;
     strategy := strategy p |}.

Definition set_pluginManager (m : M) (p : pluginControl) : pluginControl :=
  {| Started := Started p; eventManager := eventManager p;
     pluginManager := m; metricCatalog := metricCatalog p;
     pluginRunner := pluginRunner p;
     strategy := strategy p |}.

Definition set_metricCatalog (c : catalog C) (p : pluginControl) : pluginControl :=
  {| Started := Started p; eventManager := eventManager p;
     pluginManager := pluginManager p; metricCatalog := c;
     pluginRunner := pluginRunner p;
     strategy := strategy p |}.

Definition set_pluginRunner (r : availablePlugins) (p : pluginControl) : pluginControl :=
  {| Started := Started p; eventManager := eventManager p;
     pluginManager := pluginManager p; metricCatalog := metricCatalog p;
     pluginRunner := r;
     strategy := strategy p |}.

(** *** Calls on the facade: state passing, with panics *)

(** A call returns a value, panics, or never returns; each leaves a facade
    state behind. *)
Inductive outcome (A : Type) :=
| Returns (a : A) (p : pluginControl)
| Panics (msg : string) (p : pluginControl)
| Hangs (p : pluginControl).
Arguments Returns {A} a p.
Arguments Panics {A} msg p.
Arguments Hangs {A} p.

Definition final {A : Type} (o : outcome A) : pluginControl :=
  match o with Returns _ p => p | Panics _ p => p | Hangs p => p end.

(** The value a call returned, if it did return. *)
Definition returned {A : Type} (o : outcome A) : option A :=
  match o with Returns a _ => Some a | _ => None end.

Definition op (A : Type) : Type := pluginControl → outcome A.

#[local] Instance op_ret : MRet op := λ A a p, Returns a p.

#[local] Instance op_bind : MBind op := λ A B f m p,
  match m p with
  | Returns a p' => f a p'
  | Panics msg p' => Panics msg p'
  | Hangs p' => Hangs p'
  end.

Definition this : op pluginControl := λ p, Returns p p.

Definition panic {A : Type} (msg : string) : op A := λ p, Panics msg p.

(** [p.eventManager.Emit(e)]; a deferred [Emit] runs as the call returns,
    which is where the operations below place it. *)
Definition Emit (e : event) : op unit :=
  λ p, Returns tt (set_eventManager (eventManager p ++ [e]) p).

(** A method call on [p.pluginManager]. *)
Definition onManager {A : Type} (f : M → catalog C → (M * catalog C) * A) : op A :=
  λ p, let '((m, c), a) := f (pluginManager p) (metricCatalog p) in
       Returns a (set_metricCatalog c (set_pluginManager m p)).

(** *** Start and Stop *)

Definition Start : op (option error) :=
  λ p, Returns None (set_Started true p).

Definition Stop : op unit :=
  λ p, Returns tt (set_Started false p).

(** *** Load, Unload, SwapPlugins *)

Definition Load (path : string) : op (option error) :=
  p ← this;
  if negb (Started p) then
    mret (Some (errors_New "Must start Controller before calling Load()"))
  else
    '(_, err) ← onManager (LoadPlugin path);
    match err with
    | Some e => mret (Some e)
    | None => Emit LoadPluginEvent;; mret None
    end.

Definition Unload (pl : CatalogedPlugin) : op (option error) :=
  err ← onManager (UnloadPlugin pl);
  match err with
  | Some e => mret (Some e)
  | None => Emit UnloadPluginEvent;; mret None
  end.

Definition SwapPlugins (inPath : string) (out : CatalogedPlugin) : op (option error) :=
  '(lp, err) ← onManager (LoadPlugin inPath);
  match err with
  | Some e => mret (Some e)
  | None =>
      err ← onManager (UnloadPlugin out);
      match err with
      | Some e =>
          err2 ← onManager (UnloadPlugin lp);
          match err2 with
          | Some e2 =>
              mret (Some (errors_New
                ("failed to rollback after error" +:+ Error e2 +:+ " -- " +:+ Error e)))
          | None => mret (Some e)
          end
      | None => Emit SwapPluginsEvent;; mret None
      end
  end.

(** *** Subscriptions *)

(** [errs != nil && errs.HasErrors()]. *)
Definition hasErrors (errs : option (list error)) : bool :=
  match errs with Some es => cdata.HasErrors es | None => false end.

(** An assignment through a [*metricType]. *)
Definition store (m : loc) (cell : metricType) : op unit :=
  λ p, Returns tt (set_metricCatalog
                     {| index := index (metricCatalog p);
                        cells := <[m := cell]> (cells (metricCatalog p)) |} p).


(** [SubscribeMetricType] returns the catalog's record of the metric (a
    pointer) and the errors. [m.policy], [m.config = ...] and
    [m.Subscribe()] go through the pointer [m]; a pointer that leads
    nowhere, or a [nil] table to dereference, is a nil-dereference
    panic. *)
Definition SubscribeMetricType (mt : core.MetricType) (cd : cdata.ConfigDataNode)
  : op (option loc * slice error) :=
  p ← this;
  let '(m, err) := Get (core.Namespace mt) (core.Version mt) (metricCatalog p) in
  match err with
  | Some e => mret (None, Go.append Go.nil [e])
  | None =>
      match m with
      | None =>
          mret (None, Go.append Go.nil [errors_New
            ("no metric found cannot subscribe: (" +:+ Go.fmt_strings (core.Namespace mt)
             +:+ ") version(" +:+ Go.strconv_Itoa (core.Version mt) +:+ ")")])
      | Some m =>
          match cells (metricCatalog p) !! m with
          | None => panic "invalid memory address or nil pointer dereference"
          | Some cell =>
              let '(ncdTable, errs) := cdata.Process (policy cell) (cdata.Table cd) in
              if hasErrors errs then mret (None, Some (default [] errs)) else
              match ncdTable with
              | None => panic "invalid memory address or nil pointer dereference"
              | Some t =>
                  store m (Subscribe (set_config (cdata.FromTable t) cell));;
                  Emit (MetricSubscriptionEvent (mt_Namespace cell) (mt_Version cell));;
                  mret (Some m, Go.nil)
              end
          end
      end
  end.

(** The loop of [SubscribePublisher] over the loaded plugins: every entry is
    visited and the last one with the name and version wins. The lock and
    the cursor of the table are the registry's own business. *)
Definition findLoaded (name : string) (ver : Z) (table : list loadedPlugin)
  : option loadedPlugin :=
  foldl (λ lp l, if bool_decide (lp_Name l = name ∧ lp_Version l = ver)
                 then Some l else lp) None table.

Definition SubscribePublisher (name : string) (ver : Z) (config : cdata.ConfigTable)
  : op (slice error) :=
  p ← this;
  match findLoaded name ver (LoadedPlugins (pluginManager p)) with
  | None =>
      mret (Go.append Go.nil [errors_New
        ("No loaded plugin found for publisher name: " +:+ name
         +:+ " version: " +:+ Go.strconv_Itoa ver)])
  | Some lp =>
      let ncd := ConfigPolicyTree lp [""] in
      let '(_, errs) := cdata.Process ncd config in
      if hasErrors errs then mret (Some (default [] errs)) else
      Emit (PublisherSubscriptionEvent name ver);;
      mret Go.nil
  end.

(** [UnsubscribeMetricType] has no result; a catalog error is a panic. *)
Definition UnsubscribeMetricType (mt : core.MetricType) : op unit :=
  p ← this;
  let '(c, err) := Unsubscribe (core.Namespace mt) (core.Version mt)
                               (metricCatalog p) in
  (λ p, Returns tt (set_metricCatalog c p));;
  match err with
  | Some e => panic (Error e)
  | None => Emit (MetricUnsubscriptionEvent (core.Namespace mt))
  end.

(** An operation refuses to run on a facade that is not started when it
    returns an error there and leaves the facade as it found it. *)
Definition refuses_unstarted {A : Type} (is_error : A → Prop) (f : op A) : Prop :=
  ∀ p, Started p = false → ∃ a, f p = Returns a p ∧ is_error a.

(** *** The collection path: grouping and resolution *)

(** A tuple of a loaded plugin and the metric types requested from it. *)
Record pluginMetricTypes := {
  plugin : option loadedPlugin;
  pmt_metricTypes : slice core.MetricType
}.

(** The zero value, which a map read of an absent key yields. *)
Definition pluginMetricTypes_zero : pluginMetricTypes :=
  {| plugin := None; pmt_metricTypes := Go.nil |}.

Definition groupMetricTypesByPlugin_from
    (cat : catalog C)
    (metricTypes : list core.MetricType) (pmts : gmap string pluginMetricTypes)
  : gmap string pluginMetricTypes + error :=
  foldl (λ acc mt,
    match acc with
    | inr e => inr e
    | inl pmts =>
        let '(lp, err) := GetPlugin (core.Namespace mt) (-1) cat in
        match err with
        | Some e => inr e
        | None =>
            match lp with
            | None => inr (errors_New ("Metric missing: " +:+
                            Go.strings_Join (core.Namespace mt) "/"))
            | Some lp =>
                let key := Key lp in
                let pmt := default pluginMetricTypes_zero (pmts !! key) in
                inl (<[key := {| plugin := Some lp;
                                 pmt_metricTypes :=
                                   Go.append (pmt_metricTypes pmt) [mt] |}]> pmts)
            end
        end
    end) (inl pmts) metricTypes.

(** [groupMetricTypesByPlugin] groups the metric types by [plugin.Key()];
    the first failing lookup ends it with that error and no map. *)
Definition groupMetricTypesByPlugin
    (cat : catalog C) (metricTypes : list core.MetricType)
  : gmap string pluginMetricTypes + error :=
  groupMetricTypesByPlugin_from cat metricTypes ∅.

(** [getPool] finds the pool of a plugin key and checks it is not empty. *)
Definition getPool (pluginKey : string) (aps : availablePlugins)
  : availablePluginPool + error :=
  match GetPluginPool (Collectors aps) pluginKey with
  | None =>
      inr (errors_New ("no available plugins for plugin type (" +:+ pluginKey +:+ ")"))
  | Some pool =>
      if bool_decide (Count pool = 0) then
        inr (errors_New ("there is no availablePlugins in pool (" +:+ pluginKey +:+ ")"))
      else inl pool
  end.

(** How [%v] renders a [*availablePluginPool] depends on fields the file
    does not show; the rendering is a parameter. *)
Context (fmt_pool : availablePluginPool → string).

(** [getAvailablePlugin] asks the routing strategy for an instance. The
    instance comes with its position in the pool, which is what the
    pointer [ap] designates. *)
Definition getAvailablePlugin (pool : availablePluginPool) (strategy : RoutingStrategy)
  : (nat * availablePlugin) + error :=
  let '(ap, err) := SelectUsingStrategy pool strategy in
  match err with
  | Some e => inr e
  | None =>
      match ap with
      | None => inr (errors_New ("no available plugin selected in pool " +:+ fmt_pool pool))
      | Some ap => inl ap
      end
  end.

(** *** The collection path: dispatch *)

(** [for pluginKey, pmt := range pluginToMetricMap]: some order of the
    entries, here the one the runtime's ranks give. *)
Definition range (rt : runtime) (pmts : gmap string pluginMetricTypes)
  : list (string * pluginMetricTypes) :=
  merge_sort (rank_le rt) (map_to_list pmts).

(** What the loop over the groups builds up: the errors recorded so far,
    the counter of [wg], the goroutines started, and the pool set with the
    usage statistics of the selected instances. *)
Record dispatch := {
  d_errs : slice error;
  d_wg : nat;
  d_workers : list worker;
  d_runner : availablePlugins
}.

(** [errs = append(errs, err); continue]. *)
Definition skip (err : error) (d : dispatch) : dispatch :=
  {| d_errs := Go.append (d_errs d) [err]; d_wg := d_wg d;
     d_workers := d_workers d; d_runner := d_runner d |}.

(** [wg.Add(1); go func(...){...}(pmt.metricTypes); ap.hitCount++;
    ap.lastHitTime = time.Now()], for the instance at position [i] of the
    pool of [pluginKey]. *)
Definition start (rt : runtime) (pluginKey : string) (pool : availablePluginPool)
    (i : nat) (ap : availablePlugin) (cli : collectFn) (mt : slice core.MetricType)
    (d : dispatch) : dispatch :=
  {| d_errs := d_errs d; d_wg := S (d_wg d);
     d_workers := d_workers d ++ [WCall cli (Go.elems mt)];
     d_runner :=
       {| Collectors :=
            <[pluginKey := <[i := hit (time_Now rt (length (d_workers d))) ap]> pool]>
              (Collectors (d_runner d));
          Publishers := Publishers (d_runner d) |} |}.

(** One iteration of the loop. *)
Definition dispatchGroup (rt : runtime) (strategy : RoutingStrategy)
    (d : dispatch) (group : string * pluginMetricTypes) : dispatch :=
  let '(pluginKey, pmt) := group in
  match getPool pluginKey (d_runner d) with
  | inr err => skip err d
  | inl pool =>
      match getAvailablePlugin pool strategy with
      | inr err => skip err d
      | inl (i, ap) =>
          match asCollectorClient (Client ap) with
          | None => skip (errors_New "unable to cast client to PluginCollectorClient") d
          | Some cli => start rt pluginKey pool i ap cli (pmt_metricTypes pmt) d
          end
      end
  end.

Definition dispatchGroups (rt : runtime) (strategy : RoutingStrategy)
    (groups : list (string * pluginMetricTypes)) (d : dispatch) : dispatch :=
  foldl (dispatchGroup rt strategy) d groups.

(** The goroutines as the loop leaves them. A worker may run while the
    loop is still going, but it only touches [metrics] and its own
    variables, which the loop does not, so nothing is lost by letting all
    of them start here. *)
Definition spawn (d : dispatch) : goroutines :=
  {| metrics := Go.nil; errs := d_errs d; wg := d_wg d; closed := false;
     workers := d_workers d; aggMetrics := MRecv; aggErrors := ERecv;
     main := AtWait |}.

(** What the loop maintains: [wg] counts the started workers, none of which
    has handed over its outcome yet, and the errors are a slice built by
    single appends. *)
Definition dispatch_ok (d : dispatch) : Prop :=
  d_wg d = length (d_workers d) ∧
  Forall (λ w, unfinished w = 1%nat) (d_workers d) ∧
  tidy (d_errs d).

(** Two loop states that differ in the recorded errors only. *)
Definition apart_from_errs (d d' : dispatch) : Prop :=
  d_workers d' = d_workers d ∧ d_wg d' = d_wg d ∧ d_runner d' = d_runner d.

(** The error the catalog lookup of one requested metric ends the grouping
    with, if it does. *)
Definition lookupFailure (cat : catalog C) (mt : core.MetricType) : option error :=
  match GetPlugin (core.Namespace mt) (-1) cat with
  | (_, Some e) => Some e
  | (None, None) =>
      Some (errors_New ("Metric missing: " +:+ Go.strings_Join (core.Namespace mt) "/"))
  | (Some _, None) => None
  end.

(** The errors of all stages of one call: the grouping error alone, or the
    errors of pool resolution and instance selection that the loop
    records together with the errors the remote calls of the started
    workers yield. *)
Definition stage_errors (rt : runtime) (metricTypes : list core.MetricType)
    (p : pluginControl) : list error :=
  match groupMetricTypesByPlugin (metricCatalog p) metricTypes with
  | inr err => [err]
  | inl pluginToMetricMap =>
      let d := dispatchGroups rt (strategy p) (range rt pluginToMetricMap)
                 {| d_errs := Go.nil; d_wg := O; d_workers := [];
                    d_runner := pluginRunner p |} in
      Go.elems (d_errs d) ++ flat_map owed (d_workers d)
  end.

(** [CollectMetrics]: the deadline is accepted and not looked at. *)
Definition CollectMetrics (rt : runtime) (metricTypes : list core.MetricType)
    (deadline : Z) : op (slice core.Metric * slice error) :=
  λ p,
  match groupMetricTypesByPlugin (metricCatalog p) metricTypes with
  | inr err => Returns (Go.nil, Go.append Go.nil [err]) p
  | inl pluginToMetricMap =>
      let d := dispatchGroups rt (strategy p) (range rt pluginToMetricMap)
                 {| d_errs := Go.nil; d_wg := O; d_workers := [];
                    d_runner := pluginRunner p |} in
      let g := run (schedule rt) (weight (spawn d)) (spawn d) in
      let p' := set_pluginRunner (d_runner d) p in
      match main g with
      | Returned metrics errs => Returns (metrics, errs) p'
      | Crashed msg => Panics msg p'
      | _ => Hangs p'
      end
  end.

End Facade.

Arguments Returns {M C A} a p.
Arguments Panics {M C A} msg p.
Arguments Hangs {M C A} p.

(** ** Package [control]: publication and the catalog reads *)

(** The part of [catalogsMetrics] that [MetricCatalog] calls. *)
Class fetchesMetrics (C : Type) := {
  Fetch : list string → catalog C → slice loc * option error
}.

Section FacadeReads.

Context {M C : Type} `{!catalogsMetrics C} `{!managesPlugins M C} `{!fetchesMetrics C}.
Context (fmt_pool : availablePluginPool → string).

(** [PluginCatalog] returns a copy of the table of loaded plugins, made
    with [make], so never [nil]. *)
Definition PluginCatalog (p : pluginControl (M := M) (C := C)) : slice CatalogedPlugin :=
  Some (Some <$> LoadedPlugins (pluginManager p)).

(** [MetricCatalog] fetches every metric type and copies the records, one
    [append] at a time, into a slice declared without a value. *)
Definition MetricCatalog (p : pluginControl (M := M) (C := C))
  : slice loc * option error :=
  let '(mts, err) := Fetch [] (metricCatalog p) in
  match err with
  | Some e => (Go.nil, Some e)
  | None => (foldl (λ c mt, Go.append c [mt]) Go.nil (Go.elems mts), None)
  end.

(** [MetricExists]: whether [Get] reports no error. *)
Definition MetricExists (mns : list string) (ver : Z)
    (p : pluginControl (M := M) (C := C)) : bool :=
  match (Get mns ver (metricCatalog p)).2 with
  | None => true
  | Some _ => false
  end.

(** [PublishMetrics] resolves the publisher pool of [name:version], asks
    the routing strategy for an instance and calls its [Publish]. *)
Definition PublishMetrics (contentType : string) (content : list Byte.byte)
    (pluginName : string) (pluginVersion : Z) (config : cdata.ConfigTable)
  : op (M := M) (C := C) (slice error) :=
  λ p,
  let key := Go.strings_Join [pluginName; Go.strconv_Itoa pluginVersion] ":" in
  match GetPluginPool (Publishers (pluginRunner p)) key with
  | None =>
      Returns (Some [errors_New ("No available plugin found for " +:+ pluginName
                                 +:+ ":" +:+ Go.strconv_Itoa pluginVersion)]) p
  | Some pool =>
      match getAvailablePlugin fmt_pool pool (strategy p) with
      | inr err => Returns (Some [err]) p
      | inl (i, ap) =>
          match Client ap with
          | PublisherClient publish =>
              match publish contentType content config with
              | Some err => Returns (Some [err]) p
              | None => Returns Go.nil p
              end
          | _ =>
              Returns (Some [errors_New "unable to cast client to PluginPublisherClient"]) p
          end
      end
  end.

(** [pluginMetricTypes.Count]. *)
Definition pluginMetricTypes_Count (pmt : pluginMetricTypes) : Z :=
  Z.of_nat (Go.len (pmt_metricTypes pmt)).

(** The plugin the catalog names as the owner of a requested metric, and
    whether a requested metric belongs to the group of a key. *)
Definition owner (cat : catalog C) (mt : core.MetricType) : option loadedPlugin :=
  (GetPlugin (core.Namespace mt) (-1) cat).1.

Definition ownedBy (cat : catalog C) (key : string) (mt : core.MetricType) : Prop :=
  Key <$> owner cat mt = Some key.

#[global] Instance ownedBy_dec (cat : catalog C) (key : string) (mt : core.MetricType)
  : Decision (ownedBy cat key mt) := decide (Key <$> owner cat mt = Some key).


End FacadeReads.




(** The metric types a map entry holds, none for an absent entry. *)
Definition held (o : option pluginMetricTypes) : list core.MetricType :=
  Go.elems (pmt_metricTypes (default pluginMetricTypes_zero o)).

(** Strings without the separator of the pool keys. *)
Definition colon : Ascii.ascii :=
  match ":" with String c _ => c | EmptyString => Ascii.zero end.

Fixpoint colonfree (s : string) : Prop :=
  match s with
  | EmptyString => True
  | String c s => c ≠ colon ∧ colonfree s
  end.

(** The number of metric types all groups of a map hold together. *)
Definition totalCount (pmts : gmap string pluginMetricTypes) : Z :=
  map_fold (λ _ pmt n, pluginMetricTypes_Count pmt + n) 0 pmts.

(** The clients of the instances of a pool set, by key and position. *)
Definition clients (index : gmap string availablePluginPool)
  : gmap string (list pluginClient) :=
  (λ pool : list availablePlugin, Client <$> pool) <$> index.

(** ** The contract of the lifecycle manager *)

(** Modelled from the spec: the plugin manager is not part of the file. Its
    contract there: a successful load registers the new plugin, whose
    identity [name:version] was not registered before, and leaves the other
    entries alone; a successful unload removes the entry of that identity
    and no other; a failed unload changes nothing in the registry. *)
Class ManagerContract (M C : Type) `{!managesPlugins M C} : Prop := {
  load_keeps : ∀ path m c m' c' lp,
    LoadPlugin path m c = ((m', c'), (lp, None)) →
    ∀ q, q ∈ LoadedPlugins m → q ∈ LoadedPlugins m';
  load_fresh : ∀ path m c m' c' l,
    LoadPlugin path m c = ((m', c'), (Some l, None)) →
    ∀ q, q ∈ LoadedPlugins m → Key q ≠ Key l;
  unload_failed : ∀ pl m c m' c' e,
    UnloadPlugin pl m c = ((m', c'), Some e) →
    LoadedPlugins m' = LoadedPlugins m;
  unload_others : ∀ pl m c m' c',
    UnloadPlugin pl m c = ((m', c'), None) →
    ∀ q, q ∈ LoadedPlugins m → (∀ l, pl = Some l → Key q ≠ Key l) →
         q ∈ LoadedPlugins m';
  unload_removes : ∀ l m c m' c',
    UnloadPlugin (Some l) m c = ((m', c'), None) →
    ∀ q, q ∈ LoadedPlugins m' → Key q ≠ Key l
}.

(** ** A small installation

    One implementation of each interface, to run the facade on: a registry
    that loads plugins from a fixed table of binaries and refuses to unload
    pinned ones, a catalog that resolves version [-1] to the newest record,
    and a strategy that picks the instance with the fewest hits. *)

Module Fixture.

Definition accept : cdata.ConfigPolicyNode :=
  {| cdata.Process := λ t, (Some t, None) |}.

Definition requireUser : cdata.ConfigPolicyNode :=
  {| cdata.Process := λ t,
       match t !! "user" with
       | Some _ => (Some t, None)
       | None => (None, Some [errors_New "required key missing (user)"])
       end |}.

Definition mkPlugin (name : string) (ver : Z) (typ status : string)
    (node : cdata.ConfigPolicyNode) : loadedPlugin :=
  {| lp_Name := name; lp_Version := ver; lp_TypeName := typ;
     lp_Status := status; lp_LoadedTimestamp := 0;
     ConfigPolicyTree := λ _, node |}.

Definition tempcol : loadedPlugin := mkPlugin "tempcol" 2 "collector" "loaded" accept.
Definition diskcol : loadedPlugin := mkPlugin "diskcol" 1 "collector" "loaded" accept.
Definition legacy : loadedPlugin := mkPlugin "legacy" 1 "collector" "pinned" accept.
Definition vintage : loadedPlugin := mkPlugin "vintage" 1 "collector" "pinned" accept.
Definition filepub : loadedPlugin := mkPlugin "filepub" 3 "publisher" "loaded" requireUser.

(** What a binary declares: the plugin and the metric types it exposes. *)
Definition binaries : list (string * (loadedPlugin * list (list string * Z))) :=
  [ ("/opt/plugins/tempcol", (tempcol, [(["cpu"; "temp"], 1); (["cpu"; "temp"], 2)]));
    ("/opt/plugins/diskcol", (diskcol, [(["disk"; "io"], 1)]));
    ("/opt/plugins/legacy", (legacy, []));
    ("/opt/plugins/vintage", (vintage, []));
    ("/opt/plugins/filepub", (filepub, [])) ].

(** The catalog's own state: which record holds which version of which
    namespace, and the plugin that owns it. *)
Record entry := {
  e_ns : list string;
  e_ver : Z;
  e_loc : loc;
  e_owner : loadedPlugin
}.

Definition resolve (ns : list string) (ver : Z) (es : list entry) : option entry :=
  foldl (λ best e,
    if bool_decide (e_ns e = ns ∧ (ver = -1 ∨ e_ver e = ver)) then
      match best with
      | Some b => if bool_decide (e_ver b < e_ver e) then Some e else Some b
      | None => Some e
      end
    else best) None es.

Definition notFound (ns : list string) : error :=
  errors_New ("metric not found: " +:+ Go.strings_Join ns "/").

#[global] Instance entries_catalog : catalogsMetrics (list entry) := {|
  Get ns ver c :=
    match resolve ns ver (index c) with
    | Some e => (Some (e_loc e), None)
    | None => (None, Some (notFound ns))
    end;
  GetPlugin ns ver c :=
    match resolve ns ver (index c) with
    | Some e => (Some (e_owner e), None)
    | None => (None, Some (notFound ns))
    end;
  Unsubscribe ns ver c :=
    match resolve ns ver (index c) with
    | Some e =>
        match cells c !! e_loc e with
        | Some cell =>
            if bool_decide (subscriptions cell ≤ 0) then
              (c, Some (errors_New "subscription count cannot be less than 0"))
            else
              ({| index := index c;
                  cells := <[e_loc e :=
                    {| mt_Namespace := mt_Namespace cell; mt_Version := mt_Version cell;
                       policy := policy cell; config := config cell;
                       subscriptions := subscriptions cell - 1 |}]> (cells c) |}, None)
        | None => (c, Some (notFound ns))
        end
    | None => (c, Some (notFound ns))
    end
|}.

(** Registering the metric types a plugin declares, each in a fresh
    record. *)
Definition declare (lp : loadedPlugin) (c : catalog (list entry))
    (d : list string * Z) : catalog (list entry) :=
  let l := length (index c) in
  {| index := index c ++ [{| e_ns := d.1; e_ver := d.2; e_loc := l; e_owner := lp |}];
     cells := <[l := {| mt_Namespace := d.1; mt_Version := d.2; policy := requireUser;
                        config := None; subscriptions := 0 |}]> (cells c) |}.

Definition isLoaded (key : string) (r : list loadedPlugin) : bool :=
  bool_decide (key ∈ Key <$> r).

#[global] Instance registry_manager : managesPlugins (list loadedPlugin) (list entry) := {|
  LoadPlugin path r c :=
    match (list_to_map binaries : gmap string _) !! path with
    | None => ((r, c), (None, Some (errors_New ("plugin not found: " +:+ path))))
    | Some (lp, declared) =>
        if isLoaded (Key lp) r then
          ((r, c), (None, Some (errors_New ("plugin is already loaded: " +:+ Key lp))))
        else ((r ++ [lp], foldl (declare lp) c declared), (Some lp, None))
    end;
  UnloadPlugin pl r c :=
    match pl with
    | None => ((r, c), Some (errors_New "plugin is nil"))
    | Some q =>
        if negb (isLoaded (Key q) r) then
          ((r, c), Some (errors_New ("plugin is not loaded: " +:+ Key q)))
        else if bool_decide (lp_Status q = "pinned") then
          ((r, c), Some (errors_New ("plugin is pinned: " +:+ Key q)))
        else ((filter (λ l, Key l ≠ Key q) r, c), None)
    end;
  LoadedPlugins r := r
|}.

(** The instance with the fewest hits, the first of them on a tie. *)
Definition fewestHits : RoutingStrategy := λ pool,
  (fst <$> foldl (λ best iap,
      match best with
      | Some (_, h) => if bool_decide (hitCount iap.2 < h)
                       then Some (iap.1, hitCount iap.2) else best
      | None => Some (iap.1, hitCount iap.2)
      end) None (imap pair pool), None).

Definition cpuTemp : core.Metric :=
  {| core.MetricNamespace := ["cpu"; "temp"]; core.Data := 42 |}.

Definition healthy : availablePlugin :=
  {| Client := CollectorClient (λ _, (Some [cpuTemp], None));
     hitCount := 0; lastHitTime := 0 |}.

Definition failing : availablePlugin :=
  {| Client := CollectorClient (λ _, (Go.nil, Some (errors_New "rpc: connection refused")));
     hitCount := 0; lastHitTime := 0 |}.

(** A facade as [New] leaves it, with the given running instances. *)
Definition fresh (collectors : gmap string availablePluginPool)
  : pluginControl (M := list loadedPlugin) (C := list entry) :=
  {| Started := false; eventManager := [];
     pluginManager := []; metricCatalog := {| index := []; cells := ∅ |};
     pluginRunner := {| Collectors := collectors; Publishers := ∅ |};
     strategy := fewestHits |}.

Definition fmt_pool (pool : availablePluginPool) : string :=
  "&{" +:+ Go.strconv_Itoa (Count pool) +:+ "}".

(** A runtime that walks maps in rank order [0] for every key and always
    schedules the first enabled thread. *)
Definition calm : runtime :=
  {| range_rank := λ _, O; schedule := []; time_Now := λ n, 1000 + Z.of_nat n |}.

(** Running calls one after the other from a given state. *)
Definition after {A : Type}
    (o : outcome (M := list loadedPlugin) (C := list entry) A)
  : pluginControl (M := list loadedPlugin) (C := list entry) := final o.

Definition pools : gmap string availablePluginPool :=
  {[ "tempcol:2" := [healthy] ]}.

(** Started, with the temperature collector and the pinned legacy plugin
    loaded. *)
Definition serving : pluginControl (M := list loadedPlugin) (C := list entry) :=
  after (Load "/opt/plugins/legacy"
    (after (Load "/opt/plugins/tempcol" (after (Start (fresh pools)))))).

(** The same with the file publisher loaded too, and then stopped. *)
Definition stopped : pluginControl (M := list loadedPlugin) (C := list entry) :=
  after (Stop (after (Load "/opt/plugins/filepub" serving))).

Definition request (ns : list string) : core.MetricType :=
  {| core.Namespace := ns; core.Version := -1 |}.

(** The group of one requested namespace owned by a plugin, and the loop
    state before the first group. *)
Definition groupOf (lp : loadedPlugin) (ns : list string)
  : string * pluginMetricTypes :=
  (Key lp, {| plugin := Some lp; pmt_metricTypes := Some [request ns] |}).

(** The catalog of the installation hands out all its records. *)
#[global] Instance entries_fetch : fetchesMetrics (list entry) := {|
  Fetch ns c := (Some (e_loc <$> index c), None)
|}.

Definition idle : dispatch :=
  {| d_errs := Go.nil; d_wg := O; d_workers := [];
     d_runner := {| Collectors := pools; Publishers := ∅ |} |}.

End Fixture.

(** * Properties *)

(** ** Go values *)

Lemma append_elems {A : Type} (s : slice A) (xs : list A) :
  Go.elems (Go.append s xs) = Go.elems s ++ xs.
Proof. destruct s as [l|], xs; simpl; rewrite ?app_nil_r; done. Qed.

(** ** The facade operations *)

Section FacadeProperties.

Context {M C : Type} `{!catalogsMetrics C} `{!managesPlugins M C}.

Implicit Types p : pluginControl (M := M) (C := C).

(** Unfolding the state-passing plumbing of an operation. *)
Ltac plumbing :=
  unfold mbind, op_bind, mret, op_ret, this, Emit, onManager, panic, store in *.

Lemma findLoaded_app name ver table l :
  findLoaded name ver (table ++ [l]) =
  if bool_decide (lp_Name l = name ∧ lp_Version l = ver) then Some l
  else findLoaded name ver table.
Proof. unfold findLoaded. by rewrite foldl_app. Qed.

(** What [findLoaded] yields is a loaded plugin of that name and version. *)
Lemma findLoaded_Some name ver table lp :
  findLoaded name ver table = Some lp →
  lp ∈ table ∧ lp_Name lp = name ∧ lp_Version lp = ver.
Proof.
  induction table as [|l table IH] using rev_ind; [done|].
  rewrite findLoaded_app. case_bool_decide as Hl.
  - intros [= <-]. split; [|done].
    apply elem_of_app. right. by apply list_elem_of_singleton.
  - intros Hf. destruct (IH Hf) as (? & ? & ?). split; [|done].
    apply elem_of_app. by left.
Qed.

(** C2, as the code has it: [Load] on a facade that is not started returns
    the error of its guard, and leaves the facade as it was: nothing is
    loaded and nothing is emitted. *)
Theorem Load_requires_Start path p :
  Started p = false →
  Load path p =
    Returns (Some (errors_New "Must start Controller before calling Load()")) p.
Proof. intros Hs. unfold Load. plumbing. by rewrite Hs. Qed.

(** C3: when the new plugin loads and unloading the old one fails, the new
    plugin is unloaded again, on the manager as the failed unload left it.
    If that rollback succeeds, the call returns the error of the failed
    unload, the old plugin is still registered if it was, and the new one is
    gone; if the rollback fails too, the one error returned carries both
    messages. No event is emitted either way. *)
Theorem SwapPlugins_rollback `{!ManagerContract M C} inPath out p lp m1 c1 e m2 c2 :
  LoadPlugin inPath (pluginManager p) (metricCatalog p) = ((m1, c1), (lp, None)) →
  UnloadPlugin out m1 c1 = ((m2, c2), Some e) →
  ∃ m3 c3 err2,
    UnloadPlugin lp m2 c2 = ((m3, c3), err2) ∧
    match err2 with
    | None =>
        SwapPlugins inPath out p =
          Returns (Some e) (set_metricCatalog c3 (set_pluginManager m3 p)) ∧
        (∀ o, out = Some o → o ∈ LoadedPlugins (pluginManager p) →
              o ∈ LoadedPlugins m3) ∧
        (∀ l, lp = Some l → ∀ q, q ∈ LoadedPlugins m3 → Key q ≠ Key l)
    | Some e2 =>
        SwapPlugins inPath out p =
          Returns (Some (errors_New ("failed to rollback after error" +:+ Error e2
                                     +:+ " -- " +:+ Error e)))
                  (set_metricCatalog c3 (set_pluginManager m3 p))
    end.
Proof.
  intros Hload Hunload.
  destruct (UnloadPlugin lp m2 c2) as [[m3 c3] err2] eqn:Hback.
  exists m3, c3, err2. split; [done|].
  assert (Hrun : ∀ r, SwapPlugins inPath out p = r →
    r = Returns
          match err2 with
          | Some e2 => Some (errors_New ("failed to rollback after error" +:+ Error e2
                                         +:+ " -- " +:+ Error e))
          | None => Some e
          end (set_metricCatalog c3 (set_pluginManager m3 p))).
  { intros r <-. unfold SwapPlugins. plumbing. rewrite Hload. simpl.
    rewrite Hunload. simpl. rewrite Hback. by destruct err2. }
  destruct err2 as [e2|]; [by apply Hrun|].
  split; [by apply Hrun|]. split.
  - intros o -> Ho.
    eapply unload_others; [exact Hback| |].
    + erewrite unload_failed by exact Hunload. eapply load_keeps; eauto.
    + intros l ->. eapply load_fresh; eauto.
  - intros l ->. eapply unload_removes; eauto.
Qed.

(** C5: with the metric found, a validation that reports errors makes the
    call return no metric and exactly those errors, with the facade, and so
    the record's config and counter, untouched; a validation without errors
    stores the normalised config in the record, adds one to its counter and
    returns the record. *)
Theorem SubscribeMetricType_all_or_nothing mt cd p m cell :
  Get (core.Namespace mt) (core.Version mt) (metricCatalog p) = (Some m, None) →
  cells (metricCatalog p) !! m = Some cell →
  match cdata.Process (policy cell) (cdata.Table cd) with
  | (_, Some (e :: es)) =>
      SubscribeMetricType mt cd p = Returns (None, Some (e :: es)) p
  | (Some ncd, _) =>
      ∃ p', SubscribeMetricType mt cd p = Returns (Some m, Go.nil) p' ∧
            cells (metricCatalog p') !! m =
              Some {| mt_Namespace := mt_Namespace cell; mt_Version := mt_Version cell;
                      policy := policy cell;
                      config := Some (cdata.FromTable ncd);
                      subscriptions := subscriptions cell + 1 |} ∧
            (∀ m', m' ≠ m →
               cells (metricCatalog p') !! m' = cells (metricCatalog p) !! m')
  | (None, _) => ∃ msg, SubscribeMetricType mt cd p = Panics msg p
  end.
Proof.
  intros Hget Hcell. unfold SubscribeMetricType. plumbing.
  rewrite Hget, Hcell.
  destruct (cdata.Process (policy cell) (cdata.Table cd)) as [ncd errs].
  destruct errs as [[|e es]|], ncd as [t|]; simpl; eauto.
  all: eexists; split; [reflexivity|]; simpl; split;
    [by rewrite lookup_insert_eq | by intros; rewrite lookup_insert_ne].
Qed.

(** C8: every mutating operation appends exactly its own event to the
    emitted ones when it succeeds, and leaves them as they were when it
    returns an error or panics. *)
Theorem events_only_on_success p :
  (∀ path,
     match Load path p with
     | Returns None p' => eventManager p' = eventManager p ++ [LoadPluginEvent]
     | o => eventManager (final o) = eventManager p
     end) ∧
  (∀ pl,
     match Unload pl p with
     | Returns None p' => eventManager p' = eventManager p ++ [UnloadPluginEvent]
     | o => eventManager (final o) = eventManager p
     end) ∧
  (∀ inPath out,
     match SwapPlugins inPath out p with
     | Returns None p' => eventManager p' = eventManager p ++ [SwapPluginsEvent]
     | o => eventManager (final o) = eventManager p
     end) ∧
  (∀ mt cd,
     match SubscribeMetricType mt cd p with
     | Returns (_, None) p' =>
         ∃ ns ver, eventManager p' = eventManager p ++ [MetricSubscriptionEvent ns ver]
     | o => eventManager (final o) = eventManager p
     end) ∧
  (∀ name ver config,
     match SubscribePublisher name ver config p with
     | Returns None p' =>
         eventManager p' = eventManager p ++ [PublisherSubscriptionEvent name ver]
     | o => eventManager (final o) = eventManager p
     end) ∧
  (∀ mt,
     match UnsubscribeMetricType mt p with
     | Returns tt p' =>
         eventManager p' =
           eventManager p ++ [MetricUnsubscriptionEvent (core.Namespace mt)]
     | o => eventManager (final o) = eventManager p
     end).
Proof.
  repeat split; intros.
  - unfold Load. plumbing. destruct (Started p); simpl; [|done].
    destruct (LoadPlugin _ _ _) as [[??] [? [?|]]]; done.
  - unfold Unload. plumbing.
    destruct (UnloadPlugin _ _ _) as [[??] [?|]]; done.
  - unfold SwapPlugins. plumbing.
    destruct (LoadPlugin _ _ _) as [[??] [? [?|]]]; simpl; [done|].
    destruct (UnloadPlugin _ _ _) as [[??] [?|]]; simpl; [|done].
    destruct (UnloadPlugin _ _ _) as [[??] [?|]]; done.
  - unfold SubscribeMetricType. plumbing.
    destruct (Get _ _ _) as [[m|] [?|]]; simpl; try done.
    destruct (cells _ !! m) as [cell|]; simpl; [|done].
    destruct (cdata.Process _ _) as [[t|] [[|??]|]]; simpl; eauto.
  - unfold SubscribePublisher. plumbing.
    destruct (findLoaded _ _ _) as [lp|]; simpl; [|done].
    destruct (cdata.Process _ _) as [? [[|??]|]]; done.
  - unfold UnsubscribeMetricType. plumbing.
    destruct (Unsubscribe _ _ _) as [c [?|]]; done.
Qed.

(** C9: [SubscribePublisher] always returns, and the facade it leaves
    differs from the one it found in the emitted events at most: the
    registry, the catalog with every record's config and subscription
    counter, the pools, the strategy and the started flag are the same. An
    event is appended exactly when no error is returned. *)
Theorem SubscribePublisher_frame name ver config p :
  ∃ errs p',
    SubscribePublisher name ver config p = Returns errs p' ∧
    pluginManager p' = pluginManager p ∧
    metricCatalog p' = metricCatalog p ∧
    pluginRunner p' = pluginRunner p ∧
    strategy p' = strategy p ∧
    Started p' = Started p ∧
    eventManager p' =
      eventManager p ++
        match errs with
        | None => [PublisherSubscriptionEvent name ver]
        | Some _ => []
        end.
Proof.
  unfold SubscribePublisher. plumbing.
  destruct (findLoaded _ _ _) as [lp|]; simpl.
  - destruct (cdata.Process _ _) as [? [[|??]|]]; simpl;
      eexists _, _; (split; [reflexivity|]); simpl; rewrite ?app_nil_r; done.
  - eexists _, _. split; [reflexivity|]. simpl. by rewrite app_nil_r.
Qed.

End FacadeProperties.

(** ** The installation meets the manager's contract *)

Lemma isLoaded_false key (r : list loadedPlugin) :
  Fixture.isLoaded key r = false → ∀ q, q ∈ r → Key q ≠ key.
Proof.
  unfold Fixture.isLoaded. intros Hk q Hq <-.
  apply bool_decide_eq_false in Hk. apply Hk.
  apply list_elem_of_fmap. by exists q.
Qed.

#[global] Instance registry_contract :
  ManagerContract (list loadedPlugin) (list Fixture.entry).
Proof.
  split; simpl.
  - intros path m c m' c' lp Hload q Hq.
    destruct (_ !! path) as [[lp0 decl]|]; [|done].
    destruct (Fixture.isLoaded _ _); simplify_eq. apply elem_of_app. by left.
  - intros path m c m' c' l Hload q Hq.
    destruct (_ !! path) as [[lp0 decl]|]; [|done].
    destruct (Fixture.isLoaded _ _) eqn:Hk; simplify_eq.
    by eapply isLoaded_false.
  - intros [q|] m c m' c' e Hun; [|by simplify_eq].
    destruct (negb _); [by simplify_eq|].
    case_bool_decide; by simplify_eq.
  - intros [l|] m c m' c' Hun q Hq Hne; [|done].
    destruct (negb _); [done|]. case_bool_decide; simplify_eq.
    apply list_elem_of_filter. split; [by apply Hne | done].
  - intros l m c m' c' Hun q Hq.
    destruct (negb _); [done|]. case_bool_decide; simplify_eq.
    by apply list_elem_of_filter in Hq as [? _].
Qed.

(** ** The operations on the installation *)

Lemma Load_requires_Start_witness :
  Load "/opt/plugins/tempcol" (Fixture.fresh Fixture.pools) =
    Returns (Some (errors_New "Must start Controller before calling Load()"))
            (Fixture.fresh Fixture.pools).
Proof. apply Load_requires_Start. reflexivity. Defined.

(** The other mutating operations do not look at the started flag: on the
    stopped installation [Unload] and [SwapPlugins] go through, both
    subscriptions are accepted, and unsubscribing a metric without
    subscriptions panics. *)
Lemma unguarded_operations :
  ¬ (∀ pl, refuses_unstarted (M := list loadedPlugin) (C := list Fixture.entry)
             is_Some (Unload pl)) ∧
  ¬ (∀ inPath out, refuses_unstarted (M := list loadedPlugin) (C := list Fixture.entry)
             is_Some (SwapPlugins inPath out)) ∧
  ¬ (∀ mt cd, refuses_unstarted (M := list loadedPlugin) (C := list Fixture.entry)
             (λ r, r.2 ≠ Go.nil) (SubscribeMetricType mt cd)) ∧
  ¬ (∀ name ver config,
       refuses_unstarted (M := list loadedPlugin) (C := list Fixture.entry)
             (λ errs, errs ≠ Go.nil) (SubscribePublisher name ver config)) ∧
  ¬ (∀ mt, refuses_unstarted (M := list loadedPlugin) (C := list Fixture.entry)
             (λ _, True) (UnsubscribeMetricType mt)).
Proof.
  repeat split.
  - intros H. destruct (H (Some Fixture.tempcol) Fixture.stopped eq_refl)
      as (a & Heq & [e He]).
    apply (f_equal returned) in Heq. vm_compute in Heq. congruence.
  - intros H.
    destruct (H "/opt/plugins/diskcol" (Some Fixture.tempcol) Fixture.stopped eq_refl)
      as (a & Heq & [e He]).
    apply (f_equal returned) in Heq. vm_compute in Heq. congruence.
  - intros H.
    destruct (H (Fixture.request ["cpu"; "temp"])
                (cdata.FromTable {[ "user" := "root" ]}) Fixture.stopped eq_refl)
      as ([m errs] & Heq & He).
    apply (f_equal returned) in Heq. vm_compute in Heq.
    apply He. by injection Heq as <- <-.
  - intros H.
    destruct (H "filepub" 3 {[ "user" := "root" ]} Fixture.stopped eq_refl)
      as (a & Heq & He).
    apply (f_equal returned) in Heq. vm_compute in Heq.
    apply He. by injection Heq as <-.
  - intros H.
    destruct (H (Fixture.request ["cpu"; "temp"]) Fixture.stopped eq_refl)
      as (a & Heq & _).
    apply (f_equal returned) in Heq. vm_compute in Heq. congruence.
Qed.

Lemma SwapPlugins_rollback_witness :
  ∃ p', SwapPlugins "/opt/plugins/diskcol" (Some Fixture.legacy) Fixture.serving =
          Returns (Some (errors_New "plugin is pinned: legacy:1")) p' ∧
        Fixture.legacy ∈ LoadedPlugins (pluginManager p') ∧
        ∀ q, q ∈ LoadedPlugins (pluginManager p') → Key q ≠ "diskcol:1".
Proof.
  pose proof (SwapPlugins_rollback (M := list loadedPlugin) (C := list Fixture.entry)
                "/opt/plugins/diskcol" (Some Fixture.legacy) Fixture.serving
                (Some Fixture.diskcol)) as Hswap.
  edestruct Hswap as (m3 & c3 & err2 & Hback & Hres); [reflexivity..|].
  assert (err2 = None) as ->.
  { apply (f_equal snd) in Hback. vm_compute in Hback. congruence. }
  destruct Hres as (Hret & Hold & Hnew).
  eexists. split; [exact Hret|]. simpl. split.
  - apply (Hold _ eq_refl). vm_compute.
    apply list_elem_of_further, list_elem_of_here.
  - intros q Hq. exact (Hnew _ eq_refl q Hq).
Defined.

Lemma SubscribeMetricType_all_or_nothing_witness :
  SubscribeMetricType (Fixture.request ["cpu"; "temp"]) (cdata.FromTable ∅)
                      Fixture.serving =
    Returns (None, Some [errors_New "required key missing (user)"]) Fixture.serving.
Proof.
  pose proof (SubscribeMetricType_all_or_nothing
           (M := list loadedPlugin) (C := list Fixture.entry)
           (Fixture.request ["cpu"; "temp"]) (cdata.FromTable ∅) Fixture.serving 1%nat
           {| mt_Namespace := ["cpu"; "temp"]; mt_Version := 2;
              policy := Fixture.requireUser; config := None; subscriptions := 0 |}
           eq_refl eq_refl) as Hsub.
  exact Hsub.
Defined.

(** ** The goroutines: every interleaving ends, and how *)

Section Goroutines.

Implicit Types (g : goroutines) (t : thread) (w : worker).

Lemma sum_list_insert {A : Type} (f : A → nat) (ws : list A) i (w w' : A) :
  ws !! i = Some w →
  (sum_list (f <$> <[i:=w']> ws) + f w = sum_list (f <$> ws) + f w')%nat.
Proof.
  revert i. induction ws as [|a ws IH]; intros [|i] Hi; simplify_eq/=; [lia|].
  specialize (IH i Hi). lia.
Qed.

Lemma owed_insert (ws : list worker) i w w' :
  ws !! i = Some w →
  owed w ++ flat_map owed (<[i:=w']> ws) ≡ₚ owed w' ++ flat_map owed ws.
Proof.
  revert i. induction ws as [|a ws IH]; intros [|i] Hi; simplify_eq/=.
  - apply Permutation_app_swap_app.
  - rewrite Permutation_app_swap_app, (IH i Hi). apply Permutation_app_swap_app.
Qed.

Lemma owed_insert_same (ws : list worker) i w w' :
  ws !! i = Some w → owed w' = owed w →
  flat_map owed (<[i:=w']> ws) ≡ₚ flat_map owed ws.
Proof.
  intros Hi Ho. apply (Permutation_app_inv_l (owed w)).
  rewrite (owed_insert _ _ _ _ Hi). by rewrite Ho.
Qed.

(** Case analysis on a step that was taken. *)
Ltac step_inv H :=
  unfold step in H;
  destruct (running _) eqn:Hrun; simpl in H; [|discriminate];
  match type of H with
  | context [match ?t with Worker _ => _ | _ => _ end] => destruct t
  end; simpl in H;
  repeat match type of H with
  | context [workers ?g !! ?i] =>
      destruct (workers g !! i) as [[]|] eqn:?; simpl in H
  | context [match ?x with _ => _ end] => destruct x eqn:?; simpl in H
  end; simplify_eq.

Lemma step_running t g g' : step t g = Some g' → running g = true.
Proof. unfold step. by destruct (running g). Qed.

(** Every step uses up some of the weight: no interleaving goes on for
    ever. *)
Lemma step_weight t g g' : step t g = Some g' → (weight g' < weight g)%nat.
Proof.
  intros H. step_inv H; unfold weight, wg_Done, crash, running in *; simpl;
    repeat match goal with
    | Hi : workers _ !! _ = Some ?w |- context [<[_:=?w']> _] =>
        pose proof (sum_list_insert worker_weight _ _ _ w' Hi); clear Hi
    | |- context [match wg ?g with _ => _ end] => destruct (wg g); simpl
    | H : main ?g = _ |- _ => rewrite H in *
    | H : aggMetrics ?g = _ |- _ => rewrite H in *
    | H : aggErrors ?g = _ |- _ => rewrite H in *
    end; simpl in *; try lia; try discriminate.
  all: destruct (main g); simpl in *; try discriminate; lia.
Qed.

Lemma unfinished_insert (ws : list worker) i w w' :
  ws !! i = Some w →
  (sum_list (unfinished <$> <[i:=w']> ws) + unfinished w
   = sum_list (unfinished <$> ws) + unfinished w')%nat.
Proof. apply sum_list_insert. Qed.

(** Using up the implications of an invariant whose premises are settled. *)
Ltac saturate :=
  repeat match goal with
  | H : ?x = ?x → _ |- _ => specialize (H eq_refl)
  | H : ?x = ?y → _ |- _ =>
      let Hne := fresh in assert (x ≠ y) as Hne by discriminate; clear H Hne
  | H : _ ∧ _ |- _ => destruct H
  | H : _ ∨ _ |- _ => destruct H
  end.

(** The consistent states are closed under steps: in particular no
    interleaving panics. *)
Lemma consistent_step t g g' : consistent g → step t g = Some g' → consistent g'.
Proof.
  intros Hc H. step_inv H;
    unfold consistent, outstanding, wg_Done, crash, running in *; simpl in *;
    repeat match goal with
    | Hi : workers _ !! _ = Some _ |- _ =>
        pose proof (unfinished_insert _ _ _ WExit Hi);
        try match goal with |- context [<[_:=?w']> _] =>
              pose proof (unfinished_insert _ _ _ w' Hi) end;
        clear Hi
    end;
    destruct (closed g) eqn:Hc1, (main g) eqn:Hc2, (wg g) eqn:Hc3; simpl in *;
    rewrite ?Hc1, ?Hc2, ?Hc3;
    repeat match goal with
    | H : aggMetrics ?g = _ |- _ => rewrite H in *
    | H : aggErrors ?g = _ |- _ => rewrite H in *
    | H : bool_decide _ = _ |- _ => clear H
    end; simpl in *; saturate;
    try discriminate; repeat split; intros; simplify_eq; try lia; try done;
    eauto; try congruence.
Qed.

(** The errors recorded or on their way are the same after a step. *)
Lemma errors_due_step t g g' : step t g = Some g' → errors_due g' ≡ₚ errors_due g.
Proof.
  intros H. step_inv H; unfold errors_due, wg_Done, crash; simpl;
    repeat match goal with
    | |- context [match wg ?g with _ => _ end] => destruct (wg g); simpl
    | H : aggErrors ?g = _ |- _ => rewrite H in *
    end; simpl; try done.
  - do 2 f_equiv. eapply owed_insert_same; [done|]. simpl. by rewrite Heqp.
  - do 2 f_equiv. by eapply owed_insert_same.
  - do 2 f_equiv. by eapply owed_insert_same.
  - do 2 f_equiv. by eapply owed_insert_same.
  - f_equiv. etrans; [|exact (owed_insert _ _ _ WExit ltac:(eassumption))]. done.
  - rewrite append_elems. by rewrite <- app_assoc.
Qed.

Lemma tidy_append {A : Type} (s : slice A) (x : A) : tidy (Go.append s [x]).
Proof. unfold tidy. destruct s as [[|??]|]; done. Qed.

Lemma tidy_step t g g' : step t g = Some g' → tidy (errs g) → tidy (errs g').
Proof.
  intros H Ht. step_inv H; unfold wg_Done, crash; simpl;
    repeat match goal with
    | |- context [match wg ?g with _ => _ end] => destruct (wg g); simpl
    end; try done.
  apply tidy_append.
Qed.

(** The caller reads its two results off the shared variables once, at the
    final test. *)
Lemma results_read_step t g g' : step t g = Some g' → results_read g'.
Proof.
  intros H ms es. step_inv H; unfold wg_Done, crash, running in *; simpl;
    repeat match goal with
    | |- context [match wg ?g with _ => _ end] => destruct (wg g); simpl
    end;
    try (destruct (main g); simpl in *; congruence).
  - intros [= <- <-]. apply bool_decide_eq_true in Heqb.
    split; [done|]. split; [done|]. simpl. lia.
  - intros [= <- <-]. apply bool_decide_eq_false in Heqb.
    split; [done|]. split; [|done]. simpl. lia.
Qed.

(** A step is a step of one of the threads of the state. *)
Lemma step_thread t g g' : step t g = Some g' → t ∈ threads g.
Proof.
  intros H. unfold threads.
  assert (∀ i w, workers g !! i = Some w →
    ∀ t', t' ∈ [Worker i; SendMetrics i; SendError i] →
      t' ∈ flat_map (λ i, [Worker i; SendMetrics i; SendError i])
                    (seq 0 (length (workers g)))) as Hin.
  { intros i w Hi t' Ht'. apply list_elem_of_In, in_flat_map. exists i. split.
    - apply in_seq. apply lookup_lt_Some in Hi. lia.
    - by apply list_elem_of_In. }
  step_inv H;
    repeat first
      [ apply list_elem_of_here
      | apply list_elem_of_further ];
    try (eapply Hin; [eassumption|];
         repeat first [ apply list_elem_of_here | apply list_elem_of_further ]).
Qed.

Lemma step_enabled t g g' : step t g = Some g' → t ∈ enabled g.
Proof.
  intros H. apply list_elem_of_filter. split; [by eexists|].
  by eapply step_thread.
Qed.

Lemma enabled_step t g : t ∈ enabled g → is_Some (step t g).
Proof. intros Ht. by apply list_elem_of_filter in Ht as [? _]. Qed.

(** No consistent state is stuck before the caller has returned: there is
    no deadlock. *)
Lemma progress g : consistent g → running g = true → ∃ t g', step t g = Some g'.
Proof.
  intros (Hwg & Hcl & Hwait & Hclose & Hend & HM & HE & Hcrash) Hrun.
  destruct (main g) eqn:Hm; try (by unfold running in Hrun; rewrite Hm in Hrun).
  2: { exists Main. eexists. unfold step. rewrite Hrun. simpl. by rewrite Hm. }
  2: { exists Main. unfold step. rewrite Hrun. simpl. rewrite Hm.
       case_bool_decide; eauto. }
  specialize (Hwait eq_refl).
  destruct (aggMetrics g) eqn:Ha;
    try (exists AggMetrics; eexists; unfold step; rewrite Hrun; simpl;
         by rewrite Ha);
    [|by specialize (HM eq_refl); congruence].
  destruct (aggErrors g) eqn:Hb;
    try (exists AggErrors; eexists; unfold step; rewrite Hrun; simpl;
         by rewrite Hb);
    [|by specialize (HE eq_refl); congruence].
  unfold outstanding in Hwg. rewrite Ha, Hb in Hwg. simpl in Hwg.
  destruct (decide (wg g = O)) as [Hz|Hnz].
  { exists Main. eexists. unfold step. rewrite Hrun. simpl. rewrite Hm.
    by rewrite bool_decide_eq_true_2. }
  assert (∃ i w, workers g !! i = Some w ∧ w ≠ WExit) as (i & w & Hi & Hw).
  { assert (sum_list (unfinished <$> workers g) ≠ O) as Hs by lia.
    clear -Hs. induction (workers g) as [|a ws IH]; [done|].
    destruct a; try (by eexists O, _).
    destruct IH as (i & w & ? & ?); [done|]. by exists (S i), w. }
  destruct w as [cli mt|err|e|v|]; [| | | |done].
  - exists (Worker i). unfold step. rewrite Hrun. simpl. rewrite Hi. simpl.
    destruct (cli mt). eauto.
  - exists (Worker i). unfold step. rewrite Hrun. simpl. rewrite Hi. simpl.
    destruct err; eauto.
  - exists (SendError i). unfold step. rewrite Hrun. simpl. rewrite Hi. simpl.
    rewrite Hwait, Hb. eauto.
  - exists (SendMetrics i). unfold step. rewrite Hrun. simpl. rewrite Hi. simpl.
    rewrite Hwait, Ha. eauto.
Qed.

(** What a run under a schedule does in one round. *)
Lemma run_unfold schedule fuel g :
  run schedule (S fuel) g = g ∧ enabled g = [] ∨
  ∃ t g', t ∈ enabled g ∧ step t g = Some g' ∧
          run schedule (S fuel) g = run (tl schedule) fuel g'.
Proof.
  cbn [run]. destruct (enabled g) as [|t ts] eqn:He; [by left|]. right.
  cbv zeta. set (k := (hd O schedule `mod` S (length ts))%nat).
  assert (nth k (t :: ts) t ∈ t :: ts) as Hin.
  { apply list_elem_of_In, nth_In. cbn [length].
    apply Nat.mod_upper_bound. lia. }
  destruct (enabled_step (nth k (t :: ts) t) g) as [g' Hg']; [by rewrite He|].
  exists (nth k (t :: ts) t), g'. by rewrite Hg'.
Qed.

(** A property of states that steps preserve holds where a run ends. *)
Lemma run_preserves (P : goroutines → Prop) schedule fuel g :
  (∀ t g g', P g → step t g = Some g' → P g') → P g → P (run schedule fuel g).
Proof.
  intros Hstep. revert schedule g. induction fuel as [|fuel IH]; intros schedule g Hg;
    [done|].
  destruct (run_unfold schedule fuel g) as [[-> _]|(t & g' & _ & Hs & ->)]; [done|].
  apply IH. by eapply Hstep.
Qed.

(** With fuel for its weight a run from a consistent state goes on until
    the caller has returned. *)
Lemma run_ends schedule fuel g :
  consistent g → (weight g ≤ fuel)%nat → running (run schedule fuel g) = false.
Proof.
  revert schedule g. induction fuel as [|fuel IH]; intros schedule g Hc Hw.
  - simpl. destruct (running g) eqn:Hrun; [|done].
    destruct (progress g Hc Hrun) as (t & g' & Hs).
    apply step_weight in Hs. lia.
  - destruct (run_unfold schedule fuel g) as [[-> He]|(t & g' & _ & Hs & ->)].
    + destruct (running g) eqn:Hrun; [|done].
      destruct (progress g Hc Hrun) as (t & g' & Hs).
      apply step_enabled in Hs. rewrite He in Hs. by apply elem_of_nil in Hs.
    + apply IH; [by eapply consistent_step|].
      apply step_weight in Hs. lia.
Qed.

(** Every interleaving is the run of some schedule. *)
Lemma run_complete g g' fuel :
  rtc steps_to g g' → running g' = false → (weight g ≤ fuel)%nat →
  ∃ schedule, run schedule fuel g = g'.
Proof.
  intros Hsteps Hend. revert fuel.
  induction Hsteps as [g|g g1 g' [t Hs] _ IH]; intros fuel Hw.
  - exists []. destruct fuel as [|fuel]; [done|].
    destruct (run_unfold [] fuel g) as [[-> _]|(t & g' & _ & Hs & _)]; [done|].
    apply step_running in Hs. congruence.
  - pose proof (step_weight _ _ _ Hs) as Hlt.
    destruct fuel as [|fuel]; [lia|].
    destruct (IH Hend fuel ltac:(lia)) as [schedule Hrun].
    pose proof (step_enabled _ _ _ Hs) as Hin.
    destruct (enabled g) as [|t0 ts] eqn:He; [by apply elem_of_nil in Hin|].
    apply list_elem_of_In, (In_nth _ _ t0) in Hin as (k & Hk & Hnth).
    exists (k :: schedule). cbn [run]. rewrite He. cbv zeta. cbn [hd tl].
    rewrite Nat.mod_small by (simpl in Hk; lia). by rewrite Hnth, Hs.
Qed.

(** Where the runs of a consistent state end: the caller has returned, the
    error list holds exactly the errors that were recorded or on their way,
    it is [nil] when there are none, and with any error the metrics are
    [nil]. *)
Lemma run_returns schedule g :
  consistent g → tidy (errs g) → running g = true →
  ∃ ms es,
    main (run schedule (weight g) g) = Returned ms es ∧
    Go.elems es ≡ₚ errors_due g ∧
    (errors_due g = [] → es = Go.nil) ∧
    (errors_due g ≠ [] → ms = Go.nil).
Proof.
  intros Hc Ht Hrun.
  set (P := λ g', consistent g' ∧ tidy (errs g') ∧ errors_due g' ≡ₚ errors_due g ∧
                  (running g' = false → results_read g')).
  assert (P (run schedule (weight g) g)) as (Hc' & Ht' & Hd' & Hr').
  { apply run_preserves.
    - intros t g1 g2 (? & ? & Hd & ?) Hs. split; [|split; [|split]].
      + by eapply consistent_step.
      + by eapply tidy_step.
      + by rewrite (errors_due_step _ _ _ Hs).
      + intros _. by eapply results_read_step.
    - split; [done|]. split; [done|]. split; [done|]. congruence. }
  pose proof (run_ends schedule (weight g) g Hc (Nat.le_refl _)) as Hend.
  set (g' := run schedule (weight g) g) in *. specialize (Hr' Hend).
  destruct Hc' as (Hwg & Hcl & _ & _ & Hopen & _ & _ & Hcrash).
  destruct (main g') as [| | |ms es|msg] eqn:Hm;
    try (by unfold running in Hend; rewrite Hm in Hend);
    [|by destruct (Hcrash msg)].
  destruct (Hr' ms es Hm) as (-> & Hsome & _).
  exists ms, (errs g'). split; [done|].
  assert (closed g' = true) as Hclosed.
  { destruct (closed g') eqn:Hcl'; [done|].
    destruct (Hopen eq_refl); discriminate. }
  specialize (Hcl Hclosed). rewrite Hcl in Hwg. unfold outstanding in Hwg.
  assert (errors_due g' = Go.elems (errs g')) as Hdue.
  { unfold errors_due.
    assert (flat_map owed (workers g') = []) as ->.
    { assert (sum_list (unfinished <$> workers g') = O) as Hs by lia.
      clear -Hs. induction (workers g') as [|a ws IH]; [done|].
      simpl in *. destruct a; simpl in *; try lia. by apply IH. }
    destruct (aggErrors g'); simpl in *; try lia; by rewrite app_nil_r. }
  rewrite Hdue in Hd'. split; [done|]. split.
  - intros Hnone. rewrite Hnone in Hd'. apply Permutation_nil_r in Hd'.
    destruct (errs g') as [[|??]|]; done.
  - intros Hany. apply Hsome. unfold Go.len.
    destruct (Go.elems (errs g')); [|simpl; lia].
    by apply Permutation_nil_l in Hd'.
Qed.

(** The runs of one worker whose call succeeds with the list [r]: the
    worker stores [r] in the shared [metrics] before it sends it, so the
    aggregator appends [r] to [r]. *)
Lemma doubling_step r t g g' : doubling r g → step t g = Some g' → doubling r g'.
Proof.
  intros (HE & Herrs & w & Hw & HP) H. step_inv H;
    repeat match goal with
    | Hi : workers g !! ?i = Some _ |- _ =>
        rewrite Hw in Hi; destruct i; simplify_eq/=
    end;
    unfold doubling, wg_Done, crash; simpl;
    repeat match goal with
    | |- context [match wg ?g with _ => _ end] => destruct (wg g); simpl
    | H : aggMetrics ?g = _ |- _ => rewrite H in *
    | H : aggErrors ?g = _ |- _ => rewrite H in *
    end; simpl in *; try done;
    rewrite ?Hw; simpl;
    (split; [done|]); (split; [done|]);
    eexists; (split; [reflexivity|]); simpl;
    repeat match goal with
    | H : aggMetrics ?g = _ |- _ => rewrite H in *
    end; simpl in *.
  all: try match goal with
           | Hc : ?c ?m = (_, _), HP : ?c ?m = (_, _) ∧ _ |- _ =>
               destruct HP as [HP ?]; rewrite HP in Hc; by simplify_eq
           end.
  all: try (destruct w; simpl in *; intuition congruence).
  all: try (intuition congruence).
Qed.

Lemma run_single_worker schedule (cli : collectFn) mt r g :
  cli mt = (r, None) →
  g = {| metrics := Go.nil; errs := Go.nil; wg := 1; closed := false;
         workers := [WCall cli mt]; aggMetrics := MRecv; aggErrors := ERecv;
         main := AtWait |} →
  main (run schedule (weight g) g) = Returned (Go.append r (Go.elems r)) Go.nil.
Proof.
  intros Hcli Hg.
  assert (consistent g) as Hc0.
  { subst g. unfold consistent, outstanding. simpl. split_and!; try done; auto. }
  assert (doubling r g) as Hd0.
  { subst g. unfold doubling. simpl. split_and!; try done. eexists. by split. }
  destruct (run_returns schedule g Hc0) as (ms & es & Hmain & _ & Hnone & _);
    [by subst g..|].
  rewrite Hmain.
  assert (es = Go.nil) as ->.
  { apply Hnone. subst g. unfold errors_due. simpl. by rewrite Hcli. }
  f_equal.
  assert ((doubling r (run schedule (weight g) g) ∧
           consistent (run schedule (weight g) g)) ∧
          (running (run schedule (weight g) g) = false →
           results_read (run schedule (weight g) g)))
    as [[(_ & Herrs & w & Hw & HP) Hc] Hread].
  { apply (run_preserves (λ g, (doubling r g ∧ consistent g) ∧
                               (running g = false → results_read g))).
    - intros t g1 g2 [[? ?] _] Hs. split; [split|].
      + by eapply doubling_step.
      + by eapply consistent_step.
      + intros _. by eapply results_read_step.
    - split; [done|]. subst g. done. }
  pose proof (run_ends schedule (weight g) g Hc0 (Nat.le_refl _)) as Hend.
  destruct (Hread Hend _ _ Hmain) as (_ & _ & Hms).
  rewrite (Hms eq_refl).
  destruct Hc as (Hwg & Hcl & _ & _ & Hopen & _ & _ & _).
  assert (closed (run schedule (weight g) g) = true) as Hclosed.
  { destruct (closed _) eqn:Hcl'; [done|].
    destruct (Hopen eq_refl) as [Hm|Hm]; rewrite Hmain in Hm; discriminate. }
  specialize (Hcl Hclosed). rewrite Hcl in Hwg. unfold outstanding in Hwg.
  rewrite Hw in Hwg. simpl in Hwg.
  destruct w; simpl in Hwg; try lia.
  destruct (aggMetrics _); simpl in Hwg; try lia; done.
Qed.

End Goroutines.

(** ** The walk orders of a map *)

#[global] Instance rank_le_trans {V : Type} (rt : runtime) :
  Transitive (rank_le (V := V) rt).
Proof. intros a b c. unfold rank_le. lia. Qed.

#[global] Instance rank_le_total {V : Type} (rt : runtime) :
  Total (rank_le (V := V) rt).
Proof. intros a b. unfold rank_le. lia. Qed.

Lemma Sorted_by_position {A : Type} (f : A → nat) (l : list A) (n : nat) :
  (∀ i x, l !! i = Some x → f x = (n + i)%nat) →
  Sorted (λ a b, (f a ≤ f b)%nat) l.
Proof.
  revert n. induction l as [|a l IH]; intros n Hpos; [constructor|].
  constructor.
  - apply (IH (S n)). intros i x Hi. rewrite (Hpos (S i) x Hi). lia.
  - destruct l as [|b l]; constructor.
    rewrite (Hpos O a eq_refl), (Hpos 1%nat b eq_refl). lia.
Qed.

(** The position of a key in a list of entries. *)
Lemma position_of_key {V : Type} (l : list (string * V)) i kv :
  NoDup l.*1 → l !! i = Some kv →
  list_find (λ e, e.1 = kv.1) l = Some (i, kv).
Proof.
  intros Hnd Hi. apply list_find_Some. split; [done|]. split; [done|].
  intros j y Hj Hlt Hy.
  assert (l.*1 !! j = Some kv.1) as Hj' by (by rewrite list_lookup_fmap, Hj; simpl; rewrite Hy).
  assert (l.*1 !! i = Some kv.1) as Hi' by (by rewrite list_lookup_fmap, Hi).
  pose proof (NoDup_lookup _ _ _ _ Hnd Hj' Hi'). lia.
Qed.

(** Every order of the entries of a map is the walk order of some runtime,
    so what holds for every runtime holds for every order in which [range]
    may visit the groups. *)
Lemma range_any_order (rt : runtime) (pm : gmap string pluginMetricTypes) l :
  l ≡ₚ map_to_list pm →
  ∃ rank, range {| range_rank := rank; schedule := schedule rt;
                   time_Now := time_Now rt |} pm = l.
Proof.
  intros Hperm.
  assert (NoDup l.*1) as Hnd.
  { rewrite Hperm. apply NoDup_fst_map_to_list. }
  set (rank := λ k : string,
         from_option fst O (list_find (λ e : string * pluginMetricTypes, e.1 = k) l)).
  exists rank. unfold range.
  set (rt' := {| range_rank := rank; schedule := schedule rt; time_Now := time_Now rt |}).
  assert (∀ i kv, l !! i = Some kv → rank kv.1 = i) as Hrank.
  { intros i kv Hi. unfold rank. by rewrite (position_of_key l i kv Hnd Hi). }
  apply (Sorted_unique_strong (rank_le rt')).
  - intros x1 x2 Hx1 Hx2 H12 H21. unfold rank_le in *. simpl in *.
    rewrite merge_sort_Permutation, <- Hperm in Hx1.
    apply list_elem_of_lookup in Hx1 as [i1 Hi1].
    apply list_elem_of_lookup in Hx2 as [i2 Hi2].
    rewrite (Hrank _ _ Hi1), (Hrank _ _ Hi2) in *.
    assert (i1 = i2) as -> by lia. congruence.
  - apply Sorted_merge_sort. apply _.
  - apply (Sorted_by_position (λ e, rank e.1) l O). intros i x Hi.
    by rewrite (Hrank _ _ Hi).
  - by rewrite merge_sort_Permutation.
Qed.

(** ** The collection path *)

Section CollectionProperties.

Context {M C : Type} `{!catalogsMetrics C} `{!managesPlugins M C}.
Context (fmt_pool : availablePluginPool → string).

Implicit Types (p : pluginControl (M := M) (C := C)) (d : dispatch).

(** *** Grouping *)

Lemma group_from_cons (cat : catalog C) mt mts pmts :
  groupMetricTypesByPlugin_from cat (mt :: mts) pmts =
  match lookupFailure cat mt with
  | Some e => inr e
  | None =>
      match (GetPlugin (core.Namespace mt) (-1) cat).1 with
      | Some lp =>
          groupMetricTypesByPlugin_from cat mts
            (<[Key lp := {| plugin := Some lp;
                            pmt_metricTypes :=
                              Go.append (pmt_metricTypes
                                 (default pluginMetricTypes_zero (pmts !! Key lp))) [mt]
                         |}]> pmts)
      | None => groupMetricTypesByPlugin_from cat mts pmts
      end
  end.
Proof.
  unfold groupMetricTypesByPlugin_from, lookupFailure. simpl.
  destruct (GetPlugin _ _ _) as [[lp|] [e|]]; simpl; try done.
  all: by induction mts.
Qed.

(** The grouping stops at the first metric whose lookup fails, with the
    error of that lookup. *)
Lemma group_from_miss (cat : catalog C) mts pmts mt :
  mt ∈ mts → is_Some (lookupFailure cat mt) →
  ∃ pre mt' post e,
    mts = pre ++ mt' :: post ∧
    Forall (λ x, lookupFailure cat x = None) pre ∧
    lookupFailure cat mt' = Some e ∧
    groupMetricTypesByPlugin_from cat mts pmts = inr e.
Proof.
  intros Hin Hfail. revert pmts.
  induction mts as [|x mts IH]; intros pmts; [by apply elem_of_nil in Hin|].
  rewrite group_from_cons.
  destruct (lookupFailure cat x) as [e|] eqn:Hx.
  { exists [], x, mts, e. by repeat split. }
  assert (mt ∈ mts) as Hin'.
  { apply elem_of_cons in Hin as [->|?]; [|done].
    rewrite Hx in Hfail. by destruct Hfail. }
  unfold lookupFailure in Hx.
  destruct (GetPlugin _ _ _) as [[lp|] [e|]] eqn:Hg; try done; simpl.
  destruct (IH Hin' (<[Key lp := {| plugin := Some lp;
                            pmt_metricTypes :=
                              Go.append (pmt_metricTypes
                                 (default pluginMetricTypes_zero (pmts !! Key lp))) [x]
                         |}]> pmts)) as (pre & mt' & post & e & -> & Hpre & Hmt' & Hres).
  exists (x :: pre), mt', post, e. repeat split; try done.
  constructor; [|done]. unfold lookupFailure. by rewrite Hg.
Qed.

(** C6: when the lookup of the owning plugin fails, or finds none, for some
    requested metric, the call returns no metrics and exactly one error,
    that of the first such metric in the request, and the facade is as it
    was: no pool was resolved, no instance selected or hit, nothing
    started. *)
Theorem CollectMetrics_lookup_miss rt mts deadline p mt :
  mt ∈ mts → is_Some (lookupFailure (metricCatalog p) mt) →
  ∃ pre mt' post e,
    mts = pre ++ mt' :: post ∧
    Forall (λ x, lookupFailure (metricCatalog p) x = None) pre ∧
    lookupFailure (metricCatalog p) mt' = Some e ∧
    CollectMetrics fmt_pool rt mts deadline p = Returns (Go.nil, Some [e]) p.
Proof.
  intros Hin Hfail.
  destruct (group_from_miss (metricCatalog p) mts ∅ mt Hin Hfail)
    as (pre & mt' & post & e & Hmts & Hpre & Hmt' & Hres).
  exists pre, mt', post, e. repeat split; try done.
  unfold CollectMetrics, groupMetricTypesByPlugin. by rewrite Hres.
Qed.

(** *** The loop over the groups *)

Lemma dispatchGroup_cases rt strategy d group :
  (∃ e, dispatchGroup fmt_pool rt strategy d group = skip e d) ∨
  (∃ pool i ap cli,
     dispatchGroup fmt_pool rt strategy d group =
       start rt group.1 pool i ap cli (pmt_metricTypes group.2) d).
Proof.
  destruct group as [key pmt]. unfold dispatchGroup.
  destruct (getPool _ _) as [pool|e]; [|by left; eexists].
  destruct (getAvailablePlugin _ _ _) as [[i ap]|e]; [|by left; eexists].
  destruct (asCollectorClient _) as [cli|]; [|by left; eexists].
  right. by eexists _, _, _, _.
Qed.

Lemma dispatchGroup_ok rt strategy d group :
  dispatch_ok d → dispatch_ok (dispatchGroup fmt_pool rt strategy d group).
Proof.
  intros (Hwg & Hws & Ht).
  destruct (dispatchGroup_cases rt strategy d group)
    as [[e ->]|(pool & i & ap & cli & ->)].
  - split; [done|]. split; [done|]. apply tidy_append.
  - split; [|split; [|done]]; simpl.
    + rewrite length_app. simpl. lia.
    + apply Forall_app. split; [done|]. by constructor.
Qed.

Lemma dispatchGroups_ok rt strategy groups d :
  dispatch_ok d → dispatch_ok (dispatchGroups fmt_pool rt strategy groups d).
Proof.
  revert d. induction groups as [|group groups IH]; intros d Hd; [done|].
  apply IH. by apply dispatchGroup_ok.
Qed.

Lemma spawn_consistent d : dispatch_ok d → consistent (spawn d).
Proof.
  intros (Hwg & Hws & _). unfold consistent, outstanding. simpl.
  assert (sum_list (unfinished <$> d_workers d) = length (d_workers d)) as ->.
  { clear Hwg. induction Hws as [|w ws Hw _ IH]; [done|].
    rewrite fmap_cons. cbn [sum_list length]. by rewrite Hw, IH. }
  repeat split; try done; try lia; auto.
Qed.

(** *** The whole call *)

(** C1: every call of [CollectMetrics] returns, whatever the order of the
    map walk and the scheduling of the goroutines; the error list it returns
    holds exactly the errors of all stages (grouping, pool resolution,
    instance selection, remote invocation); without any it is [nil], and
    with any the metrics are [nil], also when other groups delivered
    metrics. So metrics and errors are never returned together. *)
Theorem CollectMetrics_fail_closed rt mts deadline p :
  ∃ ms es p',
    CollectMetrics fmt_pool rt mts deadline p = Returns (ms, es) p' ∧
    Go.elems es ≡ₚ stage_errors fmt_pool rt mts p ∧
    (stage_errors fmt_pool rt mts p = [] → es = Go.nil) ∧
    (stage_errors fmt_pool rt mts p ≠ [] → ms = Go.nil) ∧
    (ms = Go.nil ∨ es = Go.nil).
Proof.
  unfold CollectMetrics, stage_errors.
  destruct (groupMetricTypesByPlugin _ _) as [pm|e].
  2: { eexists _, _, _. split; [done|]. simpl. split_and!; try done.
       left. reflexivity. }
  set (d := dispatchGroups _ _ _ _ _).
  assert (dispatch_ok d) as Hd.
  { apply dispatchGroups_ok. by repeat split. }
  destruct (run_returns (schedule rt) (spawn d))
    as (ms & es & Hmain & Hperm & Hnone & Hany);
    [by apply spawn_consistent | apply Hd | done |].
  rewrite Hmain. exists ms, es. eexists. split; [done|].
  change (errors_due (spawn d))
    with (Go.elems (d_errs d) ++ [] ++ flat_map owed (d_workers d)) in *.
  simpl in *. repeat split; try done.
  destruct (Go.elems (d_errs d) ++ flat_map owed (d_workers d)) eqn:Hall.
  - right. by apply Hnone.
  - left. by apply Hany.
Qed.

(** C10: whatever the deadline, the runtime's choices and the facade, a
    call with no requested metric returns [nil] metrics and [nil] errors
    and leaves the facade as it was. *)
Theorem CollectMetrics_empty rt deadline p :
  CollectMetrics fmt_pool rt [] deadline p = Returns (Go.nil, Go.nil) p.
Proof.
  unfold CollectMetrics, groupMetricTypesByPlugin, groupMetricTypesByPlugin_from.
  cbn [foldl]. unfold range. rewrite map_to_list_empty.
  change (merge_sort (rank_le rt) []) with (@nil (string * pluginMetricTypes)).
  unfold dispatchGroups. cbn [foldl].
  set (d0 := {| d_errs := Go.nil; d_wg := O; d_workers := [];
                d_runner := pluginRunner p |}).
  assert (dispatch_ok d0) as Hd by (by repeat split).
  set (g0 := spawn d0).
  destruct (run_returns (schedule rt) g0)
    as (ms & es & Hmain & _ & Hnone & _);
    [by apply spawn_consistent | apply Hd | done |].
  specialize (Hnone eq_refl). subst es.
  assert (metrics (run (schedule rt) (weight g0) g0) = Go.nil ∧
          results_read (run (schedule rt) (weight g0) g0)) as [Hms Hread].
  { pose proof (run_preserves
      (λ g, (workers g = [] ∧ metrics g = Go.nil ∧
             holdingMetrics (aggMetrics g) = O) ∧ results_read g)
      (schedule rt) (weight g0) g0) as Hrun.
    destruct Hrun as [(_ & ? & _) ?]; [| |done].
    - intros t g g' [(Hws & Hm & Ha) _] Hs. split; [|by eapply results_read_step].
      clear -Hws Hm Ha Hs. unfold step in Hs.
      destruct (running g); simpl in Hs; [|done].
      destruct t; simpl in Hs; rewrite ?Hws in Hs; simpl in Hs; try done.
      + destruct (aggMetrics g); simpl in *; try done.
        destruct (closed g); by simplify_eq.
      + destruct (aggErrors g); simpl in *; try done;
          [destruct (closed g)| |]; simplify_eq; try done.
        unfold wg_Done, crash. by destruct (wg _).
      + destruct (main g); try done; repeat case_bool_decide; by simplify_eq.
    - by repeat split. }
  rewrite Hmain.
  destruct (Hread ms Go.nil Hmain) as (_ & _ & Heq).
  rewrite (Heq eq_refl), Hms. by destruct p.
Qed.

(** *** Groups are resolved independently *)

Lemma dispatchGroup_apart rt strategy d d' group :
  apart_from_errs d d' →
  apart_from_errs (dispatchGroup fmt_pool rt strategy d group)
                  (dispatchGroup fmt_pool rt strategy d' group) ∧
  ∃ new,
    Go.elems (d_errs (dispatchGroup fmt_pool rt strategy d group))
      = Go.elems (d_errs d) ++ new ∧
    Go.elems (d_errs (dispatchGroup fmt_pool rt strategy d' group))
      = Go.elems (d_errs d') ++ new.
Proof.
  intros (Hws & Hwg & Hr). destruct group as [key pmt]. unfold dispatchGroup.
  rewrite Hr. destruct (getPool _ _) as [pool|e].
  2: { split; [done|]. exists [e]. simpl. by rewrite !append_elems. }
  destruct (getAvailablePlugin _ _ _) as [[i ap]|e].
  2: { split; [done|]. exists [e]. simpl. by rewrite !append_elems. }
  destruct (asCollectorClient _) as [cli|].
  2: { split; [done|]. eexists [_]. simpl. by rewrite !append_elems. }
  split.
  - unfold apart_from_errs, start. simpl. by rewrite Hws, Hwg, Hr.
  - exists []. simpl. by rewrite !app_nil_r.
Qed.

Lemma dispatchGroups_apart rt strategy groups d d' :
  apart_from_errs d d' →
  apart_from_errs (dispatchGroups fmt_pool rt strategy groups d)
                  (dispatchGroups fmt_pool rt strategy groups d') ∧
  ∃ rest,
    Go.elems (d_errs (dispatchGroups fmt_pool rt strategy groups d))
      = Go.elems (d_errs d) ++ rest ∧
    Go.elems (d_errs (dispatchGroups fmt_pool rt strategy groups d'))
      = Go.elems (d_errs d') ++ rest.
Proof.
  revert d d'. induction groups as [|group groups IH]; intros d d' Hdd'.
  { split; [done|]. exists []. by rewrite !app_nil_r. }
  destruct (dispatchGroup_apart rt strategy d d' group Hdd')
    as (Hstep & new & Hnew & Hnew').
  destruct (IH _ _ Hstep) as (Hrest & rest & Hr & Hr').
  split; [done|]. exists (new ++ rest). simpl.
  rewrite Hr, Hr', Hnew, Hnew'. by rewrite !app_assoc.
Qed.

(** C7: a group whose pool is absent or empty, or for which no instance is
    selected, adds exactly its one error to the recorded ones; the groups
    before and after it are resolved and dispatched as they are without it:
    the same workers are started, the same instances are hit, [wg] counts
    the same, and the other errors are the same. *)
Theorem dispatch_failure_is_local rt strategy before key pmt after d e :
  (getPool key (d_runner (dispatchGroups fmt_pool rt strategy before d)) = inr e ∨
   ∃ pool,
     getPool key (d_runner (dispatchGroups fmt_pool rt strategy before d)) = inl pool ∧
     getAvailablePlugin fmt_pool pool strategy = inr e) →
  ∃ rest,
    d_workers (dispatchGroups fmt_pool rt strategy (before ++ (key, pmt) :: after) d)
      = d_workers (dispatchGroups fmt_pool rt strategy (before ++ after) d) ∧
    d_wg (dispatchGroups fmt_pool rt strategy (before ++ (key, pmt) :: after) d)
      = d_wg (dispatchGroups fmt_pool rt strategy (before ++ after) d) ∧
    d_runner (dispatchGroups fmt_pool rt strategy (before ++ (key, pmt) :: after) d)
      = d_runner (dispatchGroups fmt_pool rt strategy (before ++ after) d) ∧
    Go.elems (d_errs (dispatchGroups fmt_pool rt strategy
                        (before ++ (key, pmt) :: after) d))
      = Go.elems (d_errs (dispatchGroups fmt_pool rt strategy before d)) ++ e :: rest ∧
    Go.elems (d_errs (dispatchGroups fmt_pool rt strategy (before ++ after) d))
      = Go.elems (d_errs (dispatchGroups fmt_pool rt strategy before d)) ++ rest.
Proof.
  intros Hfail. unfold dispatchGroups. rewrite !foldl_app. cbn [foldl].
  fold (dispatchGroups fmt_pool rt strategy before d).
  set (d1 := dispatchGroups fmt_pool rt strategy before d) in *.
  assert (dispatchGroup fmt_pool rt strategy d1 (key, pmt) = skip e d1) as ->.
  { unfold dispatchGroup. destruct Hfail as [->|(pool & -> & ->)]; done. }
  fold (dispatchGroups fmt_pool rt strategy after (skip e d1)).
  fold (dispatchGroups fmt_pool rt strategy after d1).
  destruct (dispatchGroups_apart rt strategy after d1 (skip e d1))
    as ((Hws & Hwg & Hr) & rest & Hrest & Hrest'); [done|].
  exists rest. split_and!; try done.
  rewrite Hrest'. simpl. rewrite append_elems. by rewrite <- app_assoc.
Qed.

(** *** A single group *)

(** A call whose loop starts exactly one worker and records no error, and
    whose worker's remote call succeeds with the list [r], returns [r]
    appended to itself, under every schedule. *)
Lemma CollectMetrics_single_group rt mts deadline p pm cli mt r :
  groupMetricTypesByPlugin (metricCatalog p) mts = inl pm →
  d_errs (dispatchGroups fmt_pool rt (strategy p) (range rt pm)
            {| d_errs := Go.nil; d_wg := O; d_workers := [];
               d_runner := pluginRunner p |}) = Go.nil →
  d_wg (dispatchGroups fmt_pool rt (strategy p) (range rt pm)
            {| d_errs := Go.nil; d_wg := O; d_workers := [];
               d_runner := pluginRunner p |}) = 1%nat →
  d_workers (dispatchGroups fmt_pool rt (strategy p) (range rt pm)
            {| d_errs := Go.nil; d_wg := O; d_workers := [];
               d_runner := pluginRunner p |}) = [WCall cli mt] →
  cli mt = (r, None) →
  returned (CollectMetrics fmt_pool rt mts deadline p)
    = Some (Go.append r (Go.elems r), Go.nil).
Proof.
  intros Hgroup Herrs Hwg Hws Hcli. unfold CollectMetrics. rewrite Hgroup.
  set (d := dispatchGroups _ _ _ _ _) in *.
  rewrite (run_single_worker (schedule rt) cli mt r (spawn d) Hcli); [done|].
  unfold spawn. by rewrite Herrs, Hwg, Hws.
Qed.

End CollectionProperties.

(** ** The collection path on the installation *)

(** The assignment [metrics, err = cli.CollectMetrics(mt)] of a worker is a
    write to the shared named result of the enclosing call. *)
Lemma worker_assigns_metrics g i (cli : collectFn) mt :
  running g = true → workers g !! i = Some (WCall cli mt) →
  ∃ g', step (Worker i) g = Some g' ∧ metrics g' = (cli mt).1.
Proof.
  intros Hrun Hi. unfold step. rewrite Hrun. simpl. rewrite Hi. simpl.
  destruct (cli mt) as [r e]. by eexists.
Qed.

(** C4, on the installation: with one group, whose plugin is healthy and
    answers with one metric, the call returns that metric twice, under
    every walk order, schedule and deadline. The worker writes its result
    into the shared [metrics] before it sends it, so the aggregator is not
    the only writer of the combined result and appends the list to
    itself. *)
Theorem CollectMetrics_returns_result_twice rt deadline :
  returned (CollectMetrics Fixture.fmt_pool rt [Fixture.request ["cpu"; "temp"]]
              deadline Fixture.serving)
    = Some (Some [Fixture.cpuTemp; Fixture.cpuTemp], Go.nil).
Proof.
  eapply (CollectMetrics_single_group (M := list loadedPlugin)
            (C := list Fixture.entry) Fixture.fmt_pool rt _ deadline Fixture.serving
            _ (λ _, (Some [Fixture.cpuTemp], None))
            [Fixture.request ["cpu"; "temp"]] (Some [Fixture.cpuTemp]));
    reflexivity.
Qed.

(** A batch over the healthy temperature collector and the disk collector,
    which is loaded but has no running instance: no metrics, one error. *)
Example fail_closed_batch :
  returned (CollectMetrics Fixture.fmt_pool Fixture.calm
              [Fixture.request ["cpu"; "temp"]; Fixture.request ["disk"; "io"]] 0
              (Fixture.after (Load "/opt/plugins/diskcol" Fixture.serving)))
    = Some (Go.nil,
            Some [errors_New "no available plugins for plugin type (diskcol:1)"]).
Proof. vm_compute. reflexivity. Qed.

Lemma CollectMetrics_lookup_miss_witness :
  ∃ pre mt' post e,
    [Fixture.request ["cpu"; "temp"]; Fixture.request ["nope"]] = pre ++ mt' :: post ∧
    Forall (λ x, lookupFailure (metricCatalog Fixture.serving) x = None) pre ∧
    lookupFailure (metricCatalog Fixture.serving) mt' = Some e ∧
    CollectMetrics Fixture.fmt_pool Fixture.calm
      [Fixture.request ["cpu"; "temp"]; Fixture.request ["nope"]] 0 Fixture.serving
    = Returns (Go.nil, Some [e]) Fixture.serving.
Proof.
  apply (CollectMetrics_lookup_miss (M := list loadedPlugin) (C := list Fixture.entry)
           Fixture.fmt_pool Fixture.calm _ 0 Fixture.serving (Fixture.request ["nope"])).
  - apply list_elem_of_further, list_elem_of_here.
  - eexists. reflexivity.
Defined.

Lemma dispatch_failure_is_local_witness :
  ∃ rest,
    d_workers (dispatchGroups Fixture.fmt_pool Fixture.calm Fixture.fewestHits
                 ([] ++ Fixture.groupOf Fixture.diskcol ["disk"; "io"]
                     :: [Fixture.groupOf Fixture.tempcol ["cpu"; "temp"]]) Fixture.idle)
      = d_workers (dispatchGroups Fixture.fmt_pool Fixture.calm Fixture.fewestHits
                     ([] ++ [Fixture.groupOf Fixture.tempcol ["cpu"; "temp"]])
                     Fixture.idle) ∧
    d_wg (dispatchGroups Fixture.fmt_pool Fixture.calm Fixture.fewestHits
                 ([] ++ Fixture.groupOf Fixture.diskcol ["disk"; "io"]
                     :: [Fixture.groupOf Fixture.tempcol ["cpu"; "temp"]]) Fixture.idle)
      = d_wg (dispatchGroups Fixture.fmt_pool Fixture.calm Fixture.fewestHits
                     ([] ++ [Fixture.groupOf Fixture.tempcol ["cpu"; "temp"]])
                     Fixture.idle) ∧
    d_runner (dispatchGroups Fixture.fmt_pool Fixture.calm Fixture.fewestHits
                 ([] ++ Fixture.groupOf Fixture.diskcol ["disk"; "io"]
                     :: [Fixture.groupOf Fixture.tempcol ["cpu"; "temp"]]) Fixture.idle)
      = d_runner (dispatchGroups Fixture.fmt_pool Fixture.calm Fixture.fewestHits
                     ([] ++ [Fixture.groupOf Fixture.tempcol ["cpu"; "temp"]])
                     Fixture.idle) ∧
    Go.elems (d_errs (dispatchGroups Fixture.fmt_pool Fixture.calm Fixture.fewestHits
                 ([] ++ Fixture.groupOf Fixture.diskcol ["disk"; "io"]
                     :: [Fixture.groupOf Fixture.tempcol ["cpu"; "temp"]]) Fixture.idle))
      = Go.elems (d_errs (dispatchGroups Fixture.fmt_pool Fixture.calm
                            Fixture.fewestHits [] Fixture.idle))
        ++ errors_New "no available plugins for plugin type (diskcol:1)" :: rest ∧
    Go.elems (d_errs (dispatchGroups Fixture.fmt_pool Fixture.calm Fixture.fewestHits
                     ([] ++ [Fixture.groupOf Fixture.tempcol ["cpu"; "temp"]])
                     Fixture.idle))
      = Go.elems (d_errs (dispatchGroups Fixture.fmt_pool Fixture.calm
                            Fixture.fewestHits [] Fixture.idle)) ++ rest.
Proof.
  apply (dispatch_failure_is_local Fixture.fmt_pool Fixture.calm Fixture.fewestHits
           [] "diskcol:1" (Fixture.groupOf Fixture.diskcol ["disk"; "io"]).2
           [Fixture.groupOf Fixture.tempcol ["cpu"; "temp"]] Fixture.idle).
  left. reflexivity.
Defined.

(** * Further properties of the facade *)

Section MoreFacadeProperties.

Context {M C : Type} `{!catalogsMetrics C} `{!managesPlugins M C} `{!fetchesMetrics C}.
Context (fmt_pool : availablePluginPool → string).

Implicit Types p : pluginControl (M := M) (C := C).

Ltac calls :=
  unfold mbind, op_bind, mret, op_ret, this, Emit, onManager, panic, store in *.

(** *** Publication *)

(** X1: [PublishMetrics] always returns, with the facade exactly as it
    found it (no hit statistics are updated and nothing is emitted), and
    its error list is [nil] or holds one error. *)
Theorem PublishMetrics_frame contentType content name ver config p :
  ∃ errs,
    PublishMetrics fmt_pool contentType content name ver config p = Returns errs p ∧
    (errs = Go.nil ∨ ∃ e, errs = Some [e]).
Proof.
  unfold PublishMetrics.
  destruct (GetPluginPool _ _) as [pool|]; [|by eauto].
  destruct (getAvailablePlugin _ _ _) as [[i ap]|e]; [|by eauto].
  destruct (Client ap) as [collect|publish|]; [by eauto| |by eauto].
  destruct (publish _ _ _); eauto.
Qed.

(** X2: [PublishMetrics] reports no error exactly when the publisher pool of
    [name:version] exists, the strategy picks one of its instances without
    an error, that instance's client is a publisher client, and its
    [Publish] returns no error. *)
Theorem PublishMetrics_succeeds_iff contentType content name ver config p :
  PublishMetrics fmt_pool contentType content name ver config p = Returns Go.nil p ↔
  ∃ pool i ap publish,
    Publishers (pluginRunner p) !! Go.strings_Join [name; Go.strconv_Itoa ver] ":"
      = Some pool ∧
    strategy p pool = (Some i, None) ∧
    pool !! i = Some ap ∧
    Client ap = PublisherClient publish ∧
    publish contentType content config = None.
Proof.
  unfold PublishMetrics, GetPluginPool, getAvailablePlugin, SelectUsingStrategy.
  split.
  - destruct (Publishers _ !! _) as [pool|]; [|done].
    destruct (strategy p pool) as [[i|] [e|]] eqn:Hsel; simpl; try done.
    destruct (pool !! i) as [ap|] eqn:Hi; simpl; [|done].
    destruct (Client ap) as [collect|publish|] eqn:Hc; try done.
    destruct (publish _ _ _) eqn:Hp; [done|]. intros _.
    by exists pool, i, ap, publish.
  - intros (pool & i & ap & publish & -> & -> & Hi & Hc & Hp). simpl.
    rewrite Hi. simpl. by rewrite Hc, Hp.
Qed.

(** *** The lifecycle *)

(** X3: when loading the new plugin fails, [SwapPlugins] returns that error
    and never calls [UnloadPlugin]: the manager and the catalog are as the
    failed load left them, and no event is emitted. *)
Theorem SwapPlugins_load_failure inPath out p m1 c1 lp e :
  LoadPlugin inPath (pluginManager p) (metricCatalog p) = ((m1, c1), (lp, Some e)) →
  SwapPlugins inPath out p =
    Returns (Some e) (set_metricCatalog c1 (set_pluginManager m1 p)).
Proof. intros Hload. unfold SwapPlugins. calls. by rewrite Hload. Qed.

(** X4: when the new plugin loads and the old one unloads, [SwapPlugins]
    returns no error and emits the one swap event (no load or unload
    event); under the manager's contract the old plugin's identity is gone
    from the registry and every other plugin loaded before is still
    there. *)
Theorem SwapPlugins_success `{!ManagerContract M C} inPath out p lp m1 c1 m2 c2 :
  LoadPlugin inPath (pluginManager p) (metricCatalog p) = ((m1, c1), (lp, None)) →
  UnloadPlugin out m1 c1 = ((m2, c2), None) →
  SwapPlugins inPath out p =
    Returns None (set_eventManager (eventManager p ++ [SwapPluginsEvent])
                    (set_metricCatalog c2 (set_pluginManager m2 p))) ∧
  (∀ o, out = Some o → ∀ q, q ∈ LoadedPlugins m2 → Key q ≠ Key o) ∧
  (∀ q, q ∈ LoadedPlugins (pluginManager p) →
        (∀ o, out = Some o → Key q ≠ Key o) → q ∈ LoadedPlugins m2).
Proof.
  intros Hload Hunload. split_and!.
  - unfold SwapPlugins. calls. rewrite Hload. simpl. by rewrite Hunload.
  - intros o ->. by eapply unload_removes.
  - intros q Hq Hne. eapply unload_others; [exact Hunload| |done].
    by eapply load_keeps.
Qed.

(** *** Subscriptions *)

(** X5: a metric that [MetricExists] denies cannot be subscribed: the call
    returns no metric and exactly the catalog's error, and leaves the
    facade as it was. *)
Theorem MetricExists_false_subscribe mt cd p :
  MetricExists (core.Namespace mt) (core.Version mt) p = false →
  ∃ e, (Get (core.Namespace mt) (core.Version mt) (metricCatalog p)).2 = Some e ∧
       SubscribeMetricType mt cd p = Returns (None, Some [e]) p.
Proof.
  unfold MetricExists, SubscribeMetricType. calls.
  destruct (Get _ _ _) as [m [e|]]; simpl; [|done]. intros _. by exists e.
Qed.

(** X6: the plugin [SubscribePublisher] validates against is the last entry
    of the table of loaded plugins with the name and version asked for; when
    there is none the table holds no such entry. *)
Theorem findLoaded_last name ver table :
  match findLoaded name ver table with
  | Some lp =>
      ∃ before after,
        table = before ++ lp :: after ∧
        lp_Name lp = name ∧ lp_Version lp = ver ∧
        Forall (λ l, ¬ (lp_Name l = name ∧ lp_Version l = ver)) after
  | None => Forall (λ l, ¬ (lp_Name l = name ∧ lp_Version l = ver)) table
  end.
Proof.
  induction table as [|l table IH] using rev_ind; [by constructor|].
  unfold findLoaded in *. rewrite foldl_app. simpl.
  case_bool_decide as Hl.
  - exists table, []. rewrite Forall_nil. by destruct Hl.
  - destruct (foldl _ None table) as [lp|].
    + destruct IH as (before & after & -> & ? & ? & Hafter).
      exists before, (after ++ [l]). rewrite <- app_assoc. split_and!; try done.
      apply Forall_app. split; [done|]. by constructor.
    + apply Forall_app. split; [done|]. by constructor.
Qed.

(** X7: a publisher subscription that is accepted names a plugin listed by
    [PluginCatalog] with that name and version, whose root config policy
    reported no error for the config. *)
Theorem SubscribePublisher_needs_loaded name ver config p p' :
  SubscribePublisher name ver config p = Returns Go.nil p' →
  ∃ lp, Some lp ∈ Go.elems (PluginCatalog p) ∧
        lp_Name lp = name ∧ lp_Version lp = ver ∧
        hasErrors (cdata.Process (ConfigPolicyTree lp [""]) config).2 = false.
Proof.
  unfold SubscribePublisher. calls.
  pose proof (findLoaded_Some name ver (LoadedPlugins (pluginManager p))) as Hfound.
  destruct (findLoaded _ _ _) as [lp|]; simpl; [|done].
  destruct (Hfound lp eq_refl) as (Hin & ? & ?).
  destruct (cdata.Process _ _) as [t errs] eqn:Hp. simpl.
  destruct (hasErrors errs) eqn:He; simpl; [done|]. intros _.
  exists lp. rewrite Hp. split_and!; try done.
  unfold PluginCatalog. simpl. by apply list_elem_of_fmap_2.
Qed.

(** X8: two accepted subscriptions to the same record count twice and the
    config of the second replaces that of the first; each emits its
    event. *)
Theorem SubscribeMetricType_twice mt cd1 cd2 p p1 m cell t1 t2 errs1 errs2 :
  Get (core.Namespace mt) (core.Version mt) (metricCatalog p) = (Some m, None) →
  cells (metricCatalog p) !! m = Some cell →
  cdata.Process (policy cell) (cdata.Table cd1) = (Some t1, errs1) →
  hasErrors errs1 = false →
  cdata.Process (policy cell) (cdata.Table cd2) = (Some t2, errs2) →
  hasErrors errs2 = false →
  p1 = final (SubscribeMetricType mt cd1 p) →
  Get (core.Namespace mt) (core.Version mt) (metricCatalog p1) = (Some m, None) →
  ∃ p2,
    SubscribeMetricType mt cd2 p1 = Returns (Some m, Go.nil) p2 ∧
    cells (metricCatalog p2) !! m =
      Some {| mt_Namespace := mt_Namespace cell; mt_Version := mt_Version cell;
              policy := policy cell; config := Some (cdata.FromTable t2);
              subscriptions := subscriptions cell + 2 |} ∧
    eventManager p2 =
      eventManager p ++ [MetricSubscriptionEvent (mt_Namespace cell) (mt_Version cell);
                         MetricSubscriptionEvent (mt_Namespace cell) (mt_Version cell)].
Proof.
  intros Hget Hcell Hp1 He1 Hp2 He2 -> Hget1.
  assert (SubscribeMetricType mt cd1 p =
    Returns (Some m, Go.nil)
      (set_eventManager
         (eventManager p ++ [MetricSubscriptionEvent (mt_Namespace cell) (mt_Version cell)])
         (set_metricCatalog
            {| index := index (metricCatalog p);
               cells := <[m := Subscribe (set_config (cdata.FromTable t1) cell)]>
                          (cells (metricCatalog p)) |} p))) as Hfirst.
  { unfold SubscribeMetricType. calls. rewrite Hget, Hcell, Hp1, He1. done. }
  rewrite Hfirst in *. simpl in Hget1.
  unfold SubscribeMetricType. calls. simpl. rewrite Hget1. simpl.
  rewrite lookup_insert_eq. simpl. rewrite Hp2, He2.
  eexists. split; [done|]. simpl. split.
  - rewrite lookup_insert_eq. unfold Subscribe, set_config. simpl.
    do 2 f_equal. lia.
  - by rewrite <- app_assoc.
Qed.

(** *** The catalog reads *)

Lemma copy_by_append {A : Type} (s : slice A) (l : list A) :
  foldl (λ c x, Go.append c [x]) s l =
  match l with [] => s | _ => Some (Go.elems s ++ l) end.
Proof.
  revert s. induction l as [|x l IH]; intros s; [done|].
  simpl. rewrite IH. destruct l as [|y l].
  - by destruct s.
  - f_equal. rewrite append_elems. by rewrite <- app_assoc.
Qed.

(** X9: [MetricCatalog] returns either the error of the fetch with a [nil]
    list, or the fetched records in their order with no error; an empty
    fetch gives [nil], also when the fetched slice was allocated. *)
Theorem MetricCatalog_copies p :
  match Fetch [] (metricCatalog p) with
  | (_, Some e) => MetricCatalog p = (Go.nil, Some e)
  | (mts, None) =>
      MetricCatalog p = (match Go.elems mts with [] => Go.nil | l => Some l end, None)
  end.
Proof.
  unfold MetricCatalog. destruct (Fetch _ _) as [mts [e|]]; [done|].
  rewrite copy_by_append. by destruct (Go.elems mts).
Qed.

End MoreFacadeProperties.

(** * Further properties of the collection path *)

Section MoreCollectionProperties.

Context {M C : Type} `{!catalogsMetrics C} `{!managesPlugins M C}.
Context (fmt_pool : availablePluginPool → string).

Implicit Types (p : pluginControl (M := M) (C := C)) (d : dispatch).

(** *** Grouping *)

Lemma lookupFailure_owner (cat : catalog C) mt :
  lookupFailure cat mt = None ↔ ∃ lp, GetPlugin (core.Namespace mt) (-1) cat = (Some lp, None).
Proof.
  unfold lookupFailure. destruct (GetPlugin _ _ _) as [[lp|] [e|]]; split; try done.
  - intros [? ?]. done.
  - by eexists.
  - intros [? ?]. done.
  - intros [? ?]. done.
Qed.

(** X10: the grouping yields a map exactly when the catalog names an owner,
    without an error, for every requested metric. *)
Theorem groupMetricTypesByPlugin_succeeds_iff (cat : catalog C) mts :
  (∃ pm, groupMetricTypesByPlugin cat mts = inl pm) ↔
  Forall (λ mt, ∃ lp, GetPlugin (core.Namespace mt) (-1) cat = (Some lp, None)) mts.
Proof.
  unfold groupMetricTypesByPlugin. generalize (∅ : gmap string pluginMetricTypes).
  induction mts as [|mt mts IH]; intros pmts.
  { split; [by constructor|]. intros _. by eexists. }
  rewrite group_from_cons, Forall_cons, <- lookupFailure_owner.
  destruct (lookupFailure cat mt) as [e|] eqn:Hmt.
  { split; [by intros [? ?]|by intros [? ?]]. }
  apply lookupFailure_owner in Hmt as [lp Hlp]. rewrite Hlp. simpl.
  rewrite IH. split; [by intros ?; split; [eexists|]|by intros [_ ?]].
Qed.

Lemma group_from_contents (cat : catalog C) mts pmts pm key :
  groupMetricTypesByPlugin_from cat mts pmts = inl pm →
  match filter (ownedBy cat key) mts with
  | [] => pm !! key = pmts !! key
  | l =>
      ∃ lp mt, pm !! key = Some {| plugin := Some lp;
                                   pmt_metricTypes := Some (held (pmts !! key) ++ l) |} ∧
               last l = Some mt ∧ owner cat mt = Some lp
  end.
Proof.
  revert pmts. induction mts as [|mt mts IH]; intros pmts.
  { by intros [= ->]. }
  rewrite group_from_cons.
  destruct (lookupFailure cat mt) as [e|] eqn:Hmt; [done|].
  apply lookupFailure_owner in Hmt as [lp Hlp]. rewrite Hlp. simpl.
  intros Hrest. specialize (IH _ Hrest).
  assert (owner cat mt = Some lp) as Hown by (by unfold owner; rewrite Hlp).
  rewrite filter_cons.
  destruct (decide (ownedBy cat key mt)) as [Hkey|Hne];
    unfold ownedBy in Hkey || unfold ownedBy in Hne;
    rewrite Hown in Hkey || rewrite Hown in Hne; simpl in *.
  - injection Hkey as <-. rewrite lookup_insert_eq in IH.
    destruct (filter _ mts) as [|x l] eqn:Hl.
    + exists lp, mt. rewrite IH. split_and!; [|done|done].
      do 2 f_equal. unfold held. by destruct (pmt_metricTypes _).
    + destruct IH as (lp' & mt' & -> & Hlast & Hown'). exists lp', mt'.
      split_and!; [|done|done].
      do 3 f_equal. unfold held. simpl. rewrite append_elems.
      by rewrite <- app_assoc.
  - rewrite lookup_insert_ne in IH by congruence. done.
Qed.

(** X11: in the map the grouping yields, the group of a key holds exactly
    the requested metrics whose owner has that key, in the order of the
    request and with repetitions kept; its plugin is the owner named for
    the last of them; a key no requested metric belongs to has no group. *)
Theorem groupMetricTypesByPlugin_contents (cat : catalog C) mts pm key :
  groupMetricTypesByPlugin cat mts = inl pm →
  match filter (ownedBy cat key) mts with
  | [] => pm !! key = None
  | l =>
      ∃ lp mt, pm !! key = Some {| plugin := Some lp; pmt_metricTypes := Some l |} ∧
               last l = Some mt ∧ owner cat mt = Some lp
  end.
Proof.
  intros Hg. pose proof (group_from_contents cat mts ∅ pm key Hg) as H.
  by rewrite lookup_empty in H.
Qed.


(** *** The loop over the groups *)

Lemma getPool_inl key aps pool :
  getPool key aps = inl pool → Collectors aps !! key = Some pool.
Proof.
  unfold getPool, GetPluginPool. destruct (Collectors aps !! key); [|done].
  case_bool_decide; by intros [= ->].
Qed.

Lemma getAvailablePlugin_inl pool strategy i ap :
  getAvailablePlugin fmt_pool pool strategy = inl (i, ap) → pool !! i = Some ap.
Proof.
  unfold getAvailablePlugin, SelectUsingStrategy.
  destruct (strategy pool) as [[j|] [e|]]; simpl; try done.
  destruct (pool !! j) as [ap'|] eqn:Hj; simpl; [|done]. by intros [= <- <-].
Qed.

Lemma dispatchGroup_tally rt strategy d group :
  (length (d_workers (dispatchGroup fmt_pool rt strategy d group))
   + Go.len (d_errs (dispatchGroup fmt_pool rt strategy d group))
   = S (length (d_workers d) + Go.len (d_errs d)))%nat ∧
  (d_wg (dispatchGroup fmt_pool rt strategy d group) + length (d_workers d)
   = d_wg d + length (d_workers (dispatchGroup fmt_pool rt strategy d group)))%nat.
Proof.
  destruct (dispatchGroup_cases fmt_pool rt strategy d group)
    as [[e ->]|(pool & i & ap & cli & ->)]; simpl.
  - unfold Go.len. rewrite append_elems, length_app. simpl. lia.
  - rewrite length_app. simpl. lia.
Qed.

Lemma dispatchGroups_tally rt strategy groups d :
  (length (d_workers (dispatchGroups fmt_pool rt strategy groups d))
   + Go.len (d_errs (dispatchGroups fmt_pool rt strategy groups d))
   = length (d_workers d) + Go.len (d_errs d) + length groups)%nat ∧
  (d_wg (dispatchGroups fmt_pool rt strategy groups d) + length (d_workers d)
   = d_wg d + length (d_workers (dispatchGroups fmt_pool rt strategy groups d)))%nat.
Proof.
  revert d. induction groups as [|group groups IH]; intros d; [simpl; lia|].
  simpl. destruct (IH (dispatchGroup fmt_pool rt strategy d group)) as [IH1 IH2].
  destruct (dispatchGroup_tally rt strategy d group) as [H1 H2].
  unfold dispatchGroups in *. lia.
Qed.

(** X12: the loop accounts for every group exactly once: each adds either
    one started worker or one recorded error, and [wg] is raised once per
    started worker. *)
Theorem dispatch_accounts_for_every_group rt strategy groups runner :
  (length (d_workers (dispatchGroups fmt_pool rt strategy groups
             {| d_errs := Go.nil; d_wg := O; d_workers := []; d_runner := runner |}))
   + Go.len (d_errs (dispatchGroups fmt_pool rt strategy groups
             {| d_errs := Go.nil; d_wg := O; d_workers := []; d_runner := runner |}))
   = length groups)%nat ∧
  d_wg (dispatchGroups fmt_pool rt strategy groups
          {| d_errs := Go.nil; d_wg := O; d_workers := []; d_runner := runner |})
  = length (d_workers (dispatchGroups fmt_pool rt strategy groups
          {| d_errs := Go.nil; d_wg := O; d_workers := []; d_runner := runner |})).
Proof.
  destruct (dispatchGroups_tally rt strategy groups
              {| d_errs := Go.nil; d_wg := O; d_workers := []; d_runner := runner |})
    as [H1 H2].
  simpl in *. unfold Go.len in *. simpl in *. lia.
Qed.

Lemma dispatchGroup_clients rt strategy d group :
  clients (Collectors (d_runner (dispatchGroup fmt_pool rt strategy d group)))
    = clients (Collectors (d_runner d)) ∧
  Publishers (d_runner (dispatchGroup fmt_pool rt strategy d group))
    = Publishers (d_runner d).
Proof.
  destruct group as [key pmt]. unfold dispatchGroup.
  destruct (getPool _ _) as [pool|e] eqn:Hpool; [|done].
  destruct (getAvailablePlugin _ _ _) as [[i ap]|e] eqn:Hap; [|done].
  destruct (asCollectorClient _) as [cli|]; [|done].
  split; [|done]. simpl. unfold clients.
  apply getPool_inl in Hpool. apply getAvailablePlugin_inl in Hap.
  unfold availablePluginPool in *.
  rewrite fmap_insert, list_fmap_insert. simpl.
  rewrite (list_insert_id (Client <$> pool)).
  - apply insert_id. by rewrite lookup_fmap, Hpool.
  - by rewrite list_lookup_fmap, Hap.
Qed.

Lemma dispatchGroups_clients rt strategy groups d :
  clients (Collectors (d_runner (dispatchGroups fmt_pool rt strategy groups d)))
    = clients (Collectors (d_runner d)) ∧
  Publishers (d_runner (dispatchGroups fmt_pool rt strategy groups d))
    = Publishers (d_runner d).
Proof.
  revert d. induction groups as [|group groups IH]; intros d; [done|].
  simpl. destruct (IH (dispatchGroup fmt_pool rt strategy d group)) as [-> ->].
  apply dispatchGroup_clients.
Qed.

(** X13: the loop changes usage statistics only: every collector pool keeps
    its instances, position by position with the same clients, no pool is
    added or removed, and the publisher pools are untouched. *)
Theorem dispatch_keeps_instances rt strategy groups d :
  clients (Collectors (d_runner (dispatchGroups fmt_pool rt strategy groups d)))
    = clients (Collectors (d_runner d)) ∧
  Publishers (d_runner (dispatchGroups fmt_pool rt strategy groups d))
    = Publishers (d_runner d).
Proof. apply dispatchGroups_clients. Qed.

(** X14: a call of [CollectMetrics], however it ends, leaves the started
    flag, the emitted events, the plugin manager, the metric catalog, the
    strategy and the publisher pools as they were, and every collector pool
    with the same instances: it emits nothing and loads, unloads and
    subscribes nothing. *)
Theorem CollectMetrics_frame rt mts deadline p :
  Started (final (CollectMetrics fmt_pool rt mts deadline p)) = Started p ∧
  eventManager (final (CollectMetrics fmt_pool rt mts deadline p)) = eventManager p ∧
  pluginManager (final (CollectMetrics fmt_pool rt mts deadline p)) = pluginManager p ∧
  metricCatalog (final (CollectMetrics fmt_pool rt mts deadline p)) = metricCatalog p ∧
  strategy (final (CollectMetrics fmt_pool rt mts deadline p)) = strategy p ∧
  Publishers (pluginRunner (final (CollectMetrics fmt_pool rt mts deadline p)))
    = Publishers (pluginRunner p) ∧
  clients (Collectors (pluginRunner (final (CollectMetrics fmt_pool rt mts deadline p))))
    = clients (Collectors (pluginRunner p)).
Proof.
  unfold CollectMetrics.
  destruct (groupMetricTypesByPlugin _ _) as [pm|e]; [|done].
  set (d0 := {| d_errs := Go.nil; d_wg := O; d_workers := [];
                d_runner := pluginRunner p |}).
  destruct (dispatchGroups_clients rt (strategy p) (range rt pm) d0) as [Hc Hp].
  destruct (main _); simpl; by rewrite ?Hc, ?Hp.
Qed.

(** *** The whole call *)



End MoreCollectionProperties.

(** * Further properties of the goroutines *)

Section MoreGoroutineProperties.

Context {M C : Type} `{!catalogsMetrics C} `{!managesPlugins M C}.
Context (fmt_pool : availablePluginPool → string).

Implicit Types (g : goroutines) (t : thread) (w : worker).

(** Case analysis on a step that was taken. *)
Ltac step_cases H :=
  unfold step in H;
  destruct (running _) eqn:Hrun; simpl in H; [|discriminate];
  match type of H with
  | context [match ?t with Worker _ => _ | _ => _ end] => destruct t
  end; simpl in H;
  repeat match type of H with
  | context [workers ?g !! ?i] =>
      destruct (workers g !! i) as [[]|] eqn:?; simpl in H
  | context [match ?x with _ => _ end] => destruct x eqn:?; simpl in H
  end; simplify_eq.




Lemma workers_length_step t g g' :
  step t g = Some g' → length (workers g') = length (workers g).
Proof.
  intros H. step_cases H; unfold wg_Done, crash; simpl;
    repeat match goal with
    | |- context [match wg ?g with _ => _ end] => destruct (wg g); simpl
    end; by rewrite ?length_insert.
Qed.


(** X17: when the caller returns, under every schedule, every worker the
    loop started has handed over its outcome and ended, both channels are
    closed, [wg] is back at zero and neither aggregator holds an outcome:
    no goroutine is left blocked in a send. *)
Theorem no_goroutine_left_behind rt strategy groups runner schedule :
  Forall (λ w, w = WExit)
    (workers (run schedule
       (weight (spawn (dispatchGroups fmt_pool rt strategy groups
          {| d_errs := Go.nil; d_wg := O; d_workers := []; d_runner := runner |})))
       (spawn (dispatchGroups fmt_pool rt strategy groups
          {| d_errs := Go.nil; d_wg := O; d_workers := []; d_runner := runner |})))) ∧
  length (workers (run schedule
       (weight (spawn (dispatchGroups fmt_pool rt strategy groups
          {| d_errs := Go.nil; d_wg := O; d_workers := []; d_runner := runner |})))
       (spawn (dispatchGroups fmt_pool rt strategy groups
          {| d_errs := Go.nil; d_wg := O; d_workers := []; d_runner := runner |}))))
    = length (d_workers (dispatchGroups fmt_pool rt strategy groups
          {| d_errs := Go.nil; d_wg := O; d_workers := []; d_runner := runner |})) ∧
  closed (run schedule
       (weight (spawn (dispatchGroups fmt_pool rt strategy groups
          {| d_errs := Go.nil; d_wg := O; d_workers := []; d_runner := runner |})))
       (spawn (dispatchGroups fmt_pool rt strategy groups
          {| d_errs := Go.nil; d_wg := O; d_workers := []; d_runner := runner |})))
    = true ∧
  outstanding (run schedule
       (weight (spawn (dispatchGroups fmt_pool rt strategy groups
          {| d_errs := Go.nil; d_wg := O; d_workers := []; d_runner := runner |})))
       (spawn (dispatchGroups fmt_pool rt strategy groups
          {| d_errs := Go.nil; d_wg := O; d_workers := []; d_runner := runner |})))
    = O ∧
  wg (run schedule
       (weight (spawn (dispatchGroups fmt_pool rt strategy groups
          {| d_errs := Go.nil; d_wg := O; d_workers := []; d_runner := runner |})))
       (spawn (dispatchGroups fmt_pool rt strategy groups
          {| d_errs := Go.nil; d_wg := O; d_workers := []; d_runner := runner |})))
    = O.
Proof.
  set (d := dispatchGroups _ _ _ _ _).
  assert (dispatch_ok d) as Hd by (by apply dispatchGroups_ok).
  pose proof (spawn_consistent d Hd) as Hc0.
  pose proof (run_ends schedule (weight (spawn d)) (spawn d) Hc0 (Nat.le_refl _))
    as Hend.
  assert (consistent (run schedule (weight (spawn d)) (spawn d)) ∧
          length (workers (run schedule (weight (spawn d)) (spawn d)))
            = length (workers (spawn d))) as [Hc Hlen].
  { apply (run_preserves (λ g, consistent g ∧
                               length (workers g) = length (workers (spawn d)))).
    - intros t g g' [? Hl] Hs. split; [by eapply consistent_step|].
      by rewrite (workers_length_step _ _ _ Hs).
    - done. }
  set (g' := run schedule (weight (spawn d)) (spawn d)) in *.
  destruct Hc as (Hwg & Hcl & _ & _ & Hopen & _ & _ & _).
  assert (closed g' = true) as Hclosed.
  { destruct (closed g') eqn:Hcl'; [done|]. unfold running in Hend.
    destruct (Hopen eq_refl) as [Hm|Hm]; by rewrite Hm in Hend. }
  specialize (Hcl Hclosed). rewrite Hcl in Hwg.
  split_and!; try done.
  unfold outstanding in Hwg.
  assert (sum_list (unfinished <$> workers g') = O) as Hs by lia.
  clear -Hs. induction (workers g') as [|w ws IH]; [done|].
  rewrite fmap_cons in Hs. cbn [sum_list] in Hs.
  destruct w; simpl in Hs; try lia. constructor; [done|]. by apply IH.
Qed.

End MoreGoroutineProperties.

(** * Pool keys *)

Lemma pretty_N_char_colonfree x s : colonfree s → colonfree (String (pretty_N_char x) s).
Proof. intros Hs. split; [|done]. unfold pretty_N_char. by repeat case_match. Qed.

Lemma pretty_N_go_colonfree x s : colonfree s → colonfree (pretty_N_go x s).
Proof.
  revert s. induction (N.lt_wf_0 x) as [x _ IH]; intros s Hs.
  destruct (decide (0 < x)%N) as [Hx|Hx].
  - rewrite pretty_N_go_step by done. apply IH.
    + by apply N.div_lt.
    + by apply pretty_N_char_colonfree.
  - assert (x = 0%N) as -> by lia. by rewrite pretty_N_go_0.
Qed.

Lemma Itoa_colonfree z : colonfree (Go.strconv_Itoa z).
Proof.
  assert (∀ n : N, colonfree (pretty n)) as HN.
  { intros n. unfold pretty, pretty_N. case_decide; [done|].
    by apply pretty_N_go_colonfree. }
  unfold Go.strconv_Itoa, pretty, pretty_Z. destruct z as [|x|x]; [done| |].
  - apply HN.
  - split; [done|]. apply HN.
Qed.

Lemma append_String c a s : String c a +:+ s = String c (a +:+ s).
Proof. done. Qed.

Lemma append_empty s : "" +:+ s = s.
Proof. done. Qed.

Lemma colon_in_the_way a b : ¬ colonfree (a +:+ ":" +:+ b).
Proof.
  induction a as [|c a IH];
    repeat (rewrite append_empty || rewrite append_String).
  - by intros [? _].
  - by intros [_ ?].
Qed.

Lemma split_at_colon n1 n2 p1 p2 :
  colonfree p1 → colonfree p2 →
  n1 +:+ ":" +:+ p1 = n2 +:+ ":" +:+ p2 → n1 = n2 ∧ p1 = p2.
Proof.
  intros Hp1 Hp2. revert n2.
  induction n1 as [|c n1 IH]; intros [|c' n2] Heq;
    repeat (rewrite append_empty in Heq || rewrite append_String in Heq).
  - by injection Heq as <-.
  - injection Heq as _ Heq. rewrite Heq in Hp1.
    by destruct (colon_in_the_way n2 p2).
  - injection Heq as _ Heq. rewrite <- Heq in Hp2.
    by destruct (colon_in_the_way n1 p1).
  - injection Heq as <- Heq. by destruct (IH _ Heq) as [-> ->].
Qed.

(** X18: the pool key [PublishMetrics] builds from a plugin name and version
    determines both, whatever characters the name holds: two publications
    address the same pool only for the same name and the same version. *)
Theorem pool_key_unambiguous name1 ver1 name2 ver2 :
  Go.strings_Join [name1; Go.strconv_Itoa ver1] ":"
    = Go.strings_Join [name2; Go.strconv_Itoa ver2] ":" →
  name1 = name2 ∧ ver1 = ver2.
Proof.
  unfold Go.strings_Join. cbn [String.concat]. intros Heq.
  apply split_at_colon in Heq as [-> Hv]; try apply Itoa_colonfree.
  split; [done|]. by apply (inj pretty).
Qed.

(** * The sizes of the groups *)

Section GroupSizes.

Context {C : Type} `{!catalogsMetrics C}.

Lemma totalCount_insert key pmt (pmts : gmap string pluginMetricTypes) :
  totalCount (<[key := pmt]> pmts)
  = pluginMetricTypes_Count pmt + totalCount pmts
    - pluginMetricTypes_Count (default pluginMetricTypes_zero (pmts !! key)).
Proof.
  unfold totalCount.
  destruct (pmts !! key) as [old|] eqn:Hkey; simpl.
  - rewrite <- (insert_delete_eq pmts).
    rewrite map_fold_insert_L; [|intros; cbv beta; lia|apply lookup_delete_eq].
    rewrite <- (insert_delete_id pmts key old) at 2 by done.
    rewrite map_fold_insert_L; [|intros; cbv beta; lia|apply lookup_delete_eq].
    lia.
  - rewrite map_fold_insert_L; [|intros; cbv beta; lia|done].
    change (pluginMetricTypes_Count pluginMetricTypes_zero) with 0. lia.
Qed.

Lemma group_from_total (cat : catalog C) mts pmts pm :
  groupMetricTypesByPlugin_from cat mts pmts = inl pm →
  totalCount pm = totalCount pmts + Z.of_nat (length mts).
Proof.
  revert pmts. induction mts as [|mt mts IH]; intros pmts.
  { intros [= ->]. simpl. lia. }
  rewrite group_from_cons.
  destruct (lookupFailure cat mt) as [e|] eqn:Hmt; [done|].
  apply lookupFailure_owner in Hmt as [lp Hlp]. rewrite Hlp. simpl.
  intros Hrest. rewrite (IH _ Hrest), totalCount_insert.
  unfold pluginMetricTypes_Count, Go.len. simpl.
  rewrite append_elems, length_app. simpl. lia.
Qed.

(** X19: the grouping loses and invents nothing: the [Count]s of the groups
    of the map it yields add up to the number of metric types requested, and
    every group holds at least one. *)
Theorem groupMetricTypesByPlugin_counts (cat : catalog C) mts pm :
  groupMetricTypesByPlugin cat mts = inl pm →
  totalCount pm = Z.of_nat (length mts) ∧
  ∀ key pmt, pm !! key = Some pmt → 1 ≤ pluginMetricTypes_Count pmt.
Proof.
  intros Hg. split.
  - rewrite (group_from_total cat mts ∅ pm Hg). unfold totalCount.
    by rewrite map_fold_empty.
  - intros key pmt Hkey.
    pose proof (group_from_contents cat mts ∅ pm key Hg) as H.
    rewrite lookup_empty in H.
    destruct (filter _ mts) as [|x l]; [congruence|].
    destruct H as (lp & mt & Hpm & _). rewrite Hkey in Hpm. injection Hpm as ->.
    unfold pluginMetricTypes_Count, Go.len. simpl. lia.
Qed.

End GroupSizes.

(** * The further properties on the installation *)

Lemma SwapPlugins_load_failure_witness :
  returned (SwapPlugins "/nowhere" (Some Fixture.tempcol) Fixture.serving)
    = Some (Some (errors_New "plugin not found: /nowhere")).
Proof.
  erewrite (SwapPlugins_load_failure (M := list loadedPlugin) (C := list Fixture.entry))
    by reflexivity.
  reflexivity.
Defined.

Lemma SwapPlugins_success_witness :
  returned (SwapPlugins "/opt/plugins/diskcol" (Some Fixture.tempcol) Fixture.serving)
    = Some None.
Proof.
  edestruct (SwapPlugins_success (M := list loadedPlugin) (C := list Fixture.entry)
               "/opt/plugins/diskcol" (Some Fixture.tempcol) Fixture.serving)
    as (Hret & _ & _); [reflexivity..|].
  by rewrite Hret.
Defined.

Lemma MetricExists_false_subscribe_witness :
  ∃ e, (Get ["nope"] (-1) (metricCatalog Fixture.serving)).2 = Some e ∧
       SubscribeMetricType (Fixture.request ["nope"]) (cdata.FromTable ∅)
                           Fixture.serving
       = Returns (None, Some [e]) Fixture.serving.
Proof.
  apply (MetricExists_false_subscribe (M := list loadedPlugin) (C := list Fixture.entry)
           (Fixture.request ["nope"]) (cdata.FromTable ∅) Fixture.serving).
  reflexivity.
Defined.

Lemma SubscribePublisher_needs_loaded_witness :
  ∃ lp, Some lp ∈ Go.elems (PluginCatalog Fixture.stopped) ∧
        lp_Name lp = "filepub" ∧ lp_Version lp = 3 ∧
        hasErrors (cdata.Process (ConfigPolicyTree lp [""]) {[ "user" := "root" ]}).2
          = false.
Proof.
  apply (SubscribePublisher_needs_loaded (M := list loadedPlugin)
           (C := list Fixture.entry) "filepub" 3 {[ "user" := "root" ]} Fixture.stopped
           (Fixture.after (SubscribePublisher "filepub" 3 {[ "user" := "root" ]}
                             Fixture.stopped))).
  reflexivity.
Defined.

Lemma SubscribeMetricType_twice_witness :
  ∃ p2,
    SubscribeMetricType (Fixture.request ["cpu"; "temp"])
      (cdata.FromTable {[ "user" := "admin" ]})
      (final (SubscribeMetricType (Fixture.request ["cpu"; "temp"])
                (cdata.FromTable {[ "user" := "root" ]}) Fixture.serving))
      = Returns (Some 1%nat, Go.nil) p2 ∧
    cells (metricCatalog p2) !! 1%nat =
      Some {| mt_Namespace := ["cpu"; "temp"]; mt_Version := 2;
              policy := Fixture.requireUser;
              config := Some (cdata.FromTable {[ "user" := "admin" ]});
              subscriptions := 0 + 2 |} ∧
    eventManager p2 =
      eventManager Fixture.serving
        ++ [MetricSubscriptionEvent ["cpu"; "temp"] 2;
            MetricSubscriptionEvent ["cpu"; "temp"] 2].
Proof.
  exact (SubscribeMetricType_twice (M := list loadedPlugin) (C := list Fixture.entry)
           (Fixture.request ["cpu"; "temp"])
           (cdata.FromTable {[ "user" := "root" ]})
           (cdata.FromTable {[ "user" := "admin" ]})
           Fixture.serving _ 1%nat
           {| mt_Namespace := ["cpu"; "temp"]; mt_Version := 2;
              policy := Fixture.requireUser; config := None; subscriptions := 0 |}
           {[ "user" := "root" ]} {[ "user" := "admin" ]} None None
           eq_refl eq_refl eq_refl eq_refl eq_refl eq_refl eq_refl eq_refl).
Defined.

Lemma groupMetricTypesByPlugin_contents_witness :
  ∃ pm,
    groupMetricTypesByPlugin (metricCatalog Fixture.serving)
      [Fixture.request ["cpu"; "temp"]; Fixture.request ["cpu"; "temp"]] = inl pm ∧
    match filter (ownedBy (metricCatalog Fixture.serving) "tempcol:2")
            [Fixture.request ["cpu"; "temp"]; Fixture.request ["cpu"; "temp"]] with
    | [] => pm !! "tempcol:2" = None
    | l =>
        ∃ lp mt, pm !! "tempcol:2"
                   = Some {| plugin := Some lp; pmt_metricTypes := Some l |} ∧
                 last l = Some mt ∧ owner (metricCatalog Fixture.serving) mt = Some lp
    end.
Proof.
  eexists. split; [reflexivity|].
  apply (groupMetricTypesByPlugin_contents (C := list Fixture.entry)).
  reflexivity.
Defined.

Lemma groupMetricTypesByPlugin_counts_witness :
  ∃ pm,
    groupMetricTypesByPlugin (metricCatalog Fixture.serving)
      [Fixture.request ["cpu"; "temp"]; Fixture.request ["cpu"; "temp"]] = inl pm ∧
    totalCount pm = 2 ∧
    ∀ key pmt, pm !! key = Some pmt → 1 ≤ pluginMetricTypes_Count pmt.
Proof.
  eexists. split; [reflexivity|].
  apply (groupMetricTypesByPlugin_counts (C := list Fixture.entry)
           (metricCatalog Fixture.serving)
           [Fixture.request ["cpu"; "temp"]; Fixture.request ["cpu"; "temp"]]).
  reflexivity.
Defined.

Lemma pool_key_unambiguous_witness : "tempcol" = "tempcol" ∧ 2 = 2.
Proof. exact (pool_key_unambiguous "tempcol" 2 "tempcol" 2 eq_refl). Defined.
